(** * The core of the EVM interpreter of [evm/vm.py]

    A shallow embedding of the classes and functions of [evm/vm.py]:
    [Memory], [Stack], [CodeStream], [GasMeter], the execution environment
    (frame), [execute_vm] and [apply_message], followed by the properties
    the specification states about them.

    Python objects that are mutated in place are modelled by explicit state
    passing: a method returns the new value of [self].  Exceptions are
    values of type [Exception]. *)

From Stdlib Require Import ZArith List Lia Strings.Byte String.
From stdpp Require Import base option list gmap strings.
Import ListNotations.

Local Open Scope Z_scope.

(** ** Bytes *)

Abbreviation bytes := (list byte).

(** [ord] of a one-byte value, and the integers obtained by iterating over
    a [bytes] object. *)
Definition ord (b : byte) : Z := Z.of_N (Byte.to_N b).

(** [len(x)] as a Python integer. *)
Definition len {A} (l : list A) : Z := Z.of_nat (length l).

#[global] Instance byte_eq_dec : EqDecision byte.
Proof.
  intros a b. destruct (N.eq_dec (Byte.to_N a) (Byte.to_N b)) as [E | E].
  - left. apply (f_equal Byte.of_N) in E. rewrite !Byte.of_to_N in E. congruence.
  - right. congruence.
Defined.

#[global] Instance byte_countable : Countable byte :=
  inj_countable Byte.to_N Byte.of_N Byte.of_to_N.

(** A Python slice [l[lo:hi]] (step 1) for arbitrary integer bounds: a
    negative bound counts from the end, and both bounds are clamped to
    [0, len(l)]. *)
Definition slice_bound (n i : Z) : Z :=
  if i <? 0 then Z.max 0 (i + n) else Z.min i n.

Definition py_slice {A} (l : list A) (lo hi : Z) : list A :=
  let lo' := slice_bound (len l) lo in
  let hi' := slice_bound (len l) hi in
  take (Z.to_nat (hi' - lo')) (drop (Z.to_nat lo') l).

(** A Python subscript [l[i]] on a list: a negative index counts from the
    end, and an index outside [-len(l), len(l)) raises [IndexError], which
    is [None] here.  [py_get] reads the item, [py_set] assigns it. *)
Definition py_position {A} (l : list A) (i : Z) : option nat :=
  if (0 <=? i) && (i <? len l) then Some (Z.to_nat i)
  else if (i <? 0) && (- len l <=? i) then Some (Z.to_nat (i + len l))
  else None.

Definition py_get {A} (l : list A) (i : Z) : option A :=
  match py_position l i with
  | Some k => l !! k
  | None => None
  end.

Definition py_set {A} (l : list A) (i : Z) (x : A) : option (list A) :=
  match py_position l i with
  | Some k => Some (<[k := x]> l)
  | None => None
  end.

(** [sum(xs)] over a list of integers. *)
Definition sum (xs : list Z) : Z := fold_left Z.add xs 0.

(** ** Exceptions *)

(** The [VMError] family of [evm.exceptions].  [vm.py] imports [OutOfGas],
    [InsufficientStack], [FullStack] and [StackDepthLimit]; [InvalidOpcode]
    is what [evm.logic.invalid.invalid_op] raises. *)
Inductive VMError : Type :=
| OutOfGas
| InsufficientStack
| FullStack
| StackDepthLimit
| InvalidOpcode.

Inductive Exception : Type :=
| VMErr (e : VMError)          (* an instance of a subclass of VMError *)
| ValidationError              (* evm.exceptions.ValidationError *)
| ValueError                   (* builtin *)
| NameError (name : string).   (* builtin: [name] is not bound *)

(** [issubclass(exc_type, VMError)] *)
Definition is_VMError (e : Exception) : bool :=
  match e with VMErr _ => true | _ => false end.

(** The result of a call: a value, or an exception. *)
Inductive result (A : Type) : Type :=
| Ok (a : A)
| Raise (e : Exception).
Arguments Ok {A} a.
Arguments Raise {A} e.

Definition bind {A B} (r : result A) (k : A -> result B) : result B :=
  match r with
  | Ok a => k a
  | Raise e => Raise e
  end.

Notation "'let*' x ':=' r 'in' k" := (bind r (fun x => k))
  (at level 10, x pattern, r at level 100, k at level 200).
Notation "'check' r 'in' k" := (bind r (fun _ => k))
  (at level 10, r at level 100, k at level 200).

(** ** Validation helpers of [evm.validation] and [evm.utils.numeric] *)

Definition UINT_256_MAX : Z := 2 ^ 256 - 1.

(** Modelled from the spec: [evm.validation.validate_uint256] is not part of
    the sources; the specification says it checks that the value is a
    uint256, raising [ValidationError] otherwise. *)
Definition is_uint256 (v : Z) : bool := (0 <=? v) && (v <=? UINT_256_MAX).

Definition validate_uint256 (v : Z) : result unit :=
  if is_uint256 v then Ok tt else Raise ValidationError.

(** Modelled from the spec: [validate_lte(value, maximum)] and
    [validate_gte(value, minimum)] raise [ValidationError] when the bound
    is violated. *)
Definition validate_lte (v maximum : Z) : result unit :=
  if v <=? maximum then Ok tt else Raise ValidationError.

Definition validate_gte (v minimum : Z) : result unit :=
  if minimum <=? v then Ok tt else Raise ValidationError.

(** Modelled from the spec: [validate_length(value, length)] requires
    [len(value) == length]. *)
Definition validate_length (v : bytes) (length : Z) : result unit :=
  if len v =? length then Ok tt else Raise ValidationError.

(** Modelled from the spec: [validate_canonical_address] accepts exactly the
    20-byte strings. *)
Definition validate_canonical_address (a : bytes) : result unit :=
  if len a =? 20 then Ok tt else Raise ValidationError.

(** Modelled from the spec: [ceil32] rounds up to the next multiple of 32. *)
Definition ceil32 (v : Z) : Z := 32 * ((v + 31) / 32).

(** ** Memory *)

Module Memory.

(** [self.bytes], a bytearray. *)
Record t : Type := mk { bytes_ : bytes }.

Definition init : t := mk [].

(** [__len__] *)
Definition length (self : t) : Z := len (bytes_ self).

Definition extend (self : t) (start_position size : Z) : t :=
  if size =? 0 then self
  else
    let new_size := ceil32 (start_position + size) in
    if new_size <=? length self then self
    else
      let size_to_extend := new_size - length self in
      mk (bytes_ self ++ repeat x00 (Z.to_nat size_to_extend)).

Definition write (self : t) (start_position size : Z) (value : bytes)
  : result t :=
  check validate_uint256 start_position in
  check validate_uint256 size in
  check validate_length value size in
  check validate_lte (start_position + size) (length self) in
  Ok (mk (py_slice (bytes_ self) 0 start_position
          ++ value
          ++ py_slice (bytes_ self) (start_position + size) (length self))).

(** [self.bytes[start_position:start_position + size]] *)
Definition read (self : t) (start_position size : Z) : bytes :=
  py_slice (bytes_ self) start_position (start_position + size).

End Memory.

(** ** Stack *)

Module Stack.

(** [self.values]: a Python list whose last element is the top. *)
Record t : Type := mk { values : list bytes }.

Definition init : t := mk [].

(** [__len__] *)
Definition length (self : t) : Z := len (values self).

(** A method leaves [self] as it is at the point where it raises, so it
    returns the stack together with its result. *)
Definition push (self : t) (value : bytes) : t * result unit :=
  if length self + 1 >? 1024 then (self, Raise (VMErr FullStack))
  else
    match validate_lte (len value) 32 with
    | Raise e => (self, Raise e)
    | Ok _ => (mk (values self ++ [value]), Ok tt)
    end.

Definition pop (self : t) : t * result bytes :=
  match last (values self) with
  | None => (self, Raise (VMErr InsufficientStack))
  | Some value => (mk (removelast (values self)), Ok value)
  end.

(** [swap]: both items are read before either is assigned; the top is
    assigned first.  Every [IndexError] becomes [InsufficientStack]. *)
Definition swap (self : t) (position : Z) : t * result unit :=
  let idx := -1 * position - 1 in
  match py_get (values self) idx, py_get (values self) (-1) with
  | Some at_idx, Some top =>
    match py_set (values self) (-1) at_idx with
    | None => (self, Raise (VMErr InsufficientStack))
    | Some values1 =>
      match py_set values1 idx top with
      | None => (mk values1, Raise (VMErr InsufficientStack))
      | Some values2 => (mk values2, Ok tt)
      end
    end
  | _, _ => (self, Raise (VMErr InsufficientStack))
  end.

(** [dup]: an [IndexError] of the subscript becomes [InsufficientStack];
    what [push] raises passes. *)
Definition dup (self : t) (position : Z) : t * result unit :=
  let idx := -1 * position in
  match py_get (values self) idx with
  | None => (self, Raise (VMErr InsufficientStack))
  | Some value => push self value
  end.

End Stack.

(** ** Opcodes *)

(** Modelled from the spec: the constants of [evm.opcodes] that [vm.py]
    uses, with the byte encoding the specification gives. *)
Module opcodes.
Definition STOP : Z := 0x00.
Definition PUSH1 : Z := 0x60.
Definition PUSH32 : Z := 0x7f.
Definition RETURN : Z := 0xf3.
Definition SUICIDE : Z := 0xff.
End opcodes.

(** ** io.BytesIO *)

(** The part of Python's [io.BytesIO] that [CodeStream] uses: a buffer and
    a position.  [seek] (from the start) refuses a negative position with
    [ValueError] and accepts any other, also past the end; [read(size)]
    returns at most [size] bytes from the position on (all of them when
    [size] is negative) and advances the position by what it returned. *)
Module BytesIO.

Record t : Type := mk { buf : bytes; pos : Z }.

Definition init (initial_bytes : bytes) : t := mk initial_bytes 0.

Definition getvalue (self : t) : bytes := buf self.

Definition tell (self : t) : Z := pos self.

Definition seek (self : t) (p : Z) : result t :=
  if p <? 0 then Raise ValueError else Ok (mk (buf self) p).

Definition read (self : t) (size : Z) : bytes * t :=
  let n := Z.max 0 (len (buf self) - pos self) in
  let size := if (size <? 0) || (n <? size) then n else size in
  (take (Z.to_nat size) (drop (Z.to_nat (pos self)) (buf self)),
   mk (buf self) (pos self + size)).

End BytesIO.

(** ** CodeStream *)

Module CodeStream.

Record t : Type := mk { stream : BytesIO.t }.

Definition init (code_bytes : bytes) : t := mk (BytesIO.init code_bytes).

Definition read (self : t) (size : Z) : bytes * t :=
  let '(value, stream') := BytesIO.read (stream self) size in
  (value, mk stream').

(** [__len__] *)
Definition length (self : t) : Z := len (BytesIO.getvalue (stream self)).

(** [next] (and [__next__]): the iterator never ends, past the end of
    the code it yields STOP. *)
Definition next (self : t) : Z * t :=
  let '(next_opcode_as_byte, self') := read self 1 in
  let next_opcode :=
    match next_opcode_as_byte with
    | [b] => ord b
    | _ => opcodes.STOP
    end in
  (next_opcode, self').

(** The [pc] property: getter and setter. *)
Definition pc (self : t) : Z := BytesIO.tell (stream self).

Definition set_pc (self : t) (value : Z) : result t :=
  let* stream' := BytesIO.seek (stream self) (Z.min value (length self)) in
  Ok (mk stream').

Definition peek (self : t) : result (Z * t) :=
  let current_pc := pc self in
  let '(next_opcode, self') := next self in
  let* self'' := set_pc self' current_pc in
  Ok (next_opcode, self'').

(** [with self.seek(pc): body]: the body runs on the stream moved to
    [pc], and the former position is restored afterwards. *)
Definition seek {A} (self : t) (pc_ : Z) (body : t -> A * t) : result (A * t) :=
  let anchor_pc := pc self in
  let* self1 := set_pc self pc_ in
  let '(a, self2) := body self1 in
  let* self3 := set_pc self2 anchor_pc in
  Ok (a, self3).

(** The loop of [is_valid_opcode] over [enumerate(reversed(prefix))],
    from [offset] on; [rec] is the recursive call.  The [else] branch of
    the [for] is the empty list. *)
Fixpoint scan (rec : t -> Z -> option (result (bool * t)))
    (self : t) (position offset : Z) (rprefix : list byte)
  : option (result (bool * t)) :=
  match rprefix with
  | [] => Some (Ok (true, self))
  | b :: rest =>
    let opcode := ord b in
    if (opcode <? opcodes.PUSH1) || (opcode >? opcodes.PUSH32)
    then scan rec self position (offset + 1) rest
    else
      let push_size := 1 + opcode - opcodes.PUSH1 in
      if push_size <=? offset
      then scan rec self position (offset + 1) rest
      else
        let opcode_position := position - 1 - offset in
        match rec self opcode_position with
        | None => None
        | Some (Raise e) => Some (Raise e)
        | Some (Ok (valid, self')) =>
          if negb valid
          then scan rec self' position (offset + 1) rest
          else Some (Ok (false, self'))
        end
    end
  .

(** [is_valid_opcode] calls itself on earlier positions; [fuel] bounds
    the depth of these calls, and [None] says that it was not enough. *)
Fixpoint is_valid_opcode_fuel (fuel : nat) (self : t) (position : Z)
  : option (result (bool * t)) :=
  match fuel with
  | O => None
  | S fuel' =>
    match seek self (Z.max 0 (position - 32))
               (fun s => read s (Z.min position 32)) with
    | Raise e => Some (Raise e)
    | Ok (prefix, self') =>
      scan (is_valid_opcode_fuel fuel') self' position 0 (reverse prefix)
    end
  end.

(** A call at [position] nests at most [position + 1] deep. *)
Definition is_valid_opcode (self : t) (position : Z)
  : option (result (bool * t)) :=
  is_valid_opcode_fuel (S (Z.to_nat position)) self position.

End CodeStream.

(** ** GasMeter *)

Module GasMeter.

Record t : Type := mk {
  start_gas : Z;
  deductions : list Z;
  returns : list Z;
  refunds : list Z
}.

Definition init (start_gas : Z) : result t :=
  check validate_uint256 start_gas in
  Ok (mk start_gas [] [] []).

(** Read API *)
Definition gas_used (self : t) : Z := sum (deductions self) + sum (returns self).

Definition gas_refunded (self : t) : Z := sum (refunds self).

Definition gas_remaining (self : t) : Z := start_gas self - gas_used self.

Definition is_out_of_gas (self : t) : bool := gas_remaining self <? 0.

(** Write API.  A method that raises has not changed the meter. *)
Definition consume_gas (self : t) (amount : Z) : result t :=
  match validate_uint256 amount with
  | Raise ValidationError => Raise (VMErr OutOfGas)
  | Raise e => Raise e
  | Ok _ =>
    if is_out_of_gas self then Raise (VMErr OutOfGas)
    else Ok (mk (start_gas self) (deductions self ++ [amount])
                (returns self) (refunds self))
  end.

Definition return_gas (self : t) (amount : Z) : result t :=
  check validate_uint256 amount in
  Ok (mk (start_gas self) (deductions self)
         (returns self ++ [amount]) (refunds self)).

Definition refund_gas (self : t) (amount : Z) : result t :=
  check validate_uint256 amount in
  Ok (mk (start_gas self) (deductions self)
         (returns self) (refunds self ++ [amount])).

End GasMeter.

(** ** Storage *)

Abbreviation address := bytes (only parsing).

(** Modelled from the spec: the storage capability that [vm.py] consumes is
    not part of the sources.  The specification lists its operations
    ([get_balance], [set_balance], [get_code], [delete_code],
    [delete_storage], [snapshot], [revert]) and requires that "snapshot ->
    mutate -> revert returns storage to the snapshot state exactly"; a
    snapshot token is modelled as a copy of the whole store. *)
Module Storage.

Record t : Type := mk {
  balances : gmap (list byte) Z;
  codes : gmap (list byte) bytes;
  slots : gmap (list byte) (gmap Z Z)
}.

Definition empty : t := mk ∅ ∅ ∅.

Definition get_balance (self : t) (a : address) : Z :=
  default 0 (balances self !! a).

Definition set_balance (self : t) (a : address) (v : Z) : t :=
  mk (<[a := v]> (balances self)) (codes self) (slots self).

Definition get_code (self : t) (a : address) : bytes :=
  default [] (codes self !! a).

Definition delete_code (self : t) (a : address) : t :=
  mk (balances self) (delete a (codes self)) (slots self).

Definition delete_storage (self : t) (a : address) : t :=
  mk (balances self) (codes self) (delete a (slots self)).

Definition snapshot (self : t) : t := self.

Definition revert (self : t) (snapshot : t) : t := snapshot.

End Storage.

(** ** Message and ChainEnvironment *)

Module Message.

Record t : Type := mk {
  gas : Z;
  gas_price : Z;
  origin : address;
  account : address;
  sender : address;
  value : Z;
  data : bytes;
  depth : Z
}.

(** [__init__]: every field is validated before it is stored. *)
Definition init (gas gas_price : Z) (origin account sender : address)
    (value : Z) (data : bytes) (depth : Z) : result t :=
  check validate_uint256 gas in
  check validate_uint256 gas_price in
  check validate_canonical_address origin in
  check validate_canonical_address account in
  check validate_canonical_address sender in
  check validate_uint256 value in
  check validate_gte depth 0 in
  Ok (mk gas gas_price origin account sender value data depth).

End Message.

Module ChainEnvironment.

Record t : Type := mk { block_number : Z; gas_limit : Z; timestamp : Z }.

Definition init (block_number gas_limit timestamp : Z) : result t :=
  check validate_uint256 block_number in
  check validate_uint256 gas_limit in
  check validate_uint256 timestamp in
  Ok (mk block_number gas_limit timestamp).

End ChainEnvironment.

(** ** State *)

Module State.

Record t : Type := mk {
  memory : Memory.t;
  stack : Stack.t;
  gas_meter : GasMeter.t;
  code : CodeStream.t
}.

Definition init (code : bytes) (start_gas : Z) : result t :=
  let memory := Memory.init in
  let stack := Stack.init in
  let code := CodeStream.init code in
  let* gas_meter := GasMeter.init start_gas in
  Ok (mk memory stack gas_meter code).

End State.

Section ExtendMemory.

(** [evm.defaults.gas_costs.memory_gas_cost] is not part of the sources:
    the price of a memory of a given size. *)
Variable memory_gas_cost : Z -> Z.

(** [State.extend_memory]: the state is returned as the method left it,
    with its result. *)
Definition extend_memory (self : State.t) (start_position size : Z)
  : State.t * result unit :=
  match validate_uint256 start_position with
  | Raise e => (self, Raise e)
  | Ok _ =>
    match validate_uint256 size with
    | Raise e => (self, Raise e)
    | Ok _ =>
      let before_size := ceil32 (Memory.length (State.memory self)) in
      let after_size := ceil32 (start_position + size) in
      let before_cost := memory_gas_cost before_size in
      let after_cost := memory_gas_cost after_size in
      if size =? 0 then (self, Ok tt)
      else
        let consumed : State.t * result unit :=
          if before_cost <? after_cost
          then
            let gas_fee := after_cost - before_cost in
            match GasMeter.consume_gas (State.gas_meter self) gas_fee with
            | Raise e => (self, Raise e)
            | Ok gas_meter =>
              (State.mk (State.memory self) (State.stack self) gas_meter
                        (State.code self), Ok tt)
            end
          else (self, Ok tt) in
        match consumed with
        | (self, Raise e) => (self, Raise e)
        | (self, Ok _) =>
          if GasMeter.is_out_of_gas (State.gas_meter self)
          then (self, Raise (VMErr OutOfGas))
          else
            (State.mk (Memory.extend (State.memory self) start_position size)
                      (State.stack self) (State.gas_meter self) (State.code self),
             Ok tt)
        end
    end
  end.

End ExtendMemory.

(** ** The host and the frame *)

(** The host.  Frames hold a reference to it and mutate its storage in
    place, so the host is the state that is threaded through every call. *)
Record EVM : Type := mkEVM {
  storage : Storage.t;
  chain_environment : ChainEnvironment.t
}.

Definition set_storage (evm : EVM) (s : Storage.t) : EVM :=
  mkEVM s (chain_environment evm).

(** [EVM.snapshot] and [EVM.revert] *)
Definition EVM_snapshot (evm : EVM) : Storage.t := Storage.snapshot (storage evm).

Definition EVM_revert (evm : EVM) (snapshot : Storage.t) : EVM :=
  set_storage evm (Storage.revert (storage evm) snapshot).

(** The frame.  [accounts_to_delete] is a dict, kept here in insertion
    order, which is the order [items()] yields. *)
#[local] Unset Elimination Schemes.
Inductive ExecutionEnvironment : Type := mkEnv {
  message : Message.t;
  state : State.t;
  sub_environments : list ExecutionEnvironment;
  output : bytes;
  error : option VMError;
  logs : list (address * list Z * bytes);
  accounts_to_delete : list (address * address)
}.
#[local] Set Elimination Schemes.

Definition set_state (self : ExecutionEnvironment) (st : State.t) :=
  mkEnv (message self) st (sub_environments self) (output self) (error self)
        (logs self) (accounts_to_delete self).

Definition set_error (self : ExecutionEnvironment) (err : option VMError) :=
  mkEnv (message self) (state self) (sub_environments self) (output self) err
        (logs self) (accounts_to_delete self).

Definition set_code (self : ExecutionEnvironment) (c : CodeStream.t) :=
  set_state self (State.mk (State.memory (state self)) (State.stack (state self))
                           (State.gas_meter (state self)) c).

Definition set_gas_meter (self : ExecutionEnvironment) (g : GasMeter.t) :=
  set_state self (State.mk (State.memory (state self)) (State.stack (state self))
                           g (State.code (state self))).

(** [ExecutionEnvironment.__init__] *)
Definition ExecutionEnvironment_init (evm : EVM) (message : Message.t)
  : result ExecutionEnvironment :=
  let account_code := Storage.get_code (storage evm) (Message.account message) in
  let* state := State.init account_code (Message.gas message) in
  Ok (mkEnv message state [] [] None [] []).

(** [EVM.setup_environment] *)
Definition setup_environment (evm : EVM) (message : Message.t)
  : result ExecutionEnvironment :=
  ExecutionEnvironment_init evm message.

Definition create_message (self : ExecutionEnvironment)
    (gas : Z) (to : address) (value : Z) (data : bytes) : result Message.t :=
  Message.init gas
               (Message.gas_price (message self))
               (Message.origin (message self))
               to
               (Message.account (message self))
               value
               data
               (Message.depth (message self) + 1).

Definition register_account_for_deletion (self : ExecutionEnvironment)
    (beneficiary : address) : result ExecutionEnvironment :=
  check validate_canonical_address beneficiary in
  if bool_decide (Message.account (message self) ∈ (accounts_to_delete self).*1)
  then Raise ValueError
  else Ok (mkEnv (message self) (state self) (sub_environments self)
                 (output self) (error self) (logs self)
                 (accounts_to_delete self
                    ++ [(Message.account (message self), beneficiary)])).

Definition add_log_entry (self : ExecutionEnvironment)
    (account : address) (topics : list Z) (data : bytes) : ExecutionEnvironment :=
  mkEnv (message self) (state self) (sub_environments self) (output self)
        (error self) (logs self ++ [(account, topics, data)])
        (accounts_to_delete self).

(** One round of the loop of [__exit__]: the account's storage and code
    are deleted and its balance goes to the beneficiary. *)
Definition delete_account (s : Storage.t) (entry : address * address) : Storage.t :=
  let '(account, beneficiary) := entry in
  let s := Storage.delete_storage s account in
  let s := Storage.delete_code s account in
  let account_balance := Storage.get_balance s account in
  let s := Storage.set_balance s account 0 in
  let beneficiary_balance := Storage.get_balance s beneficiary in
  let beneficiary_updated_balance := beneficiary_balance + account_balance in
  Storage.set_balance s beneficiary beneficiary_updated_balance.

(** [ExecutionEnvironment.__exit__]: [exc] is the exception that left the
    body of the [with] statement, if any; the boolean says whether the
    exception is suppressed. *)
Definition __exit__ (evm : EVM) (self : ExecutionEnvironment)
    (exc : option Exception) : EVM * ExecutionEnvironment * bool :=
  match exc with
  | Some (VMErr exc_value) => (evm, set_error self (Some exc_value), true)
  | None =>
    (set_storage evm (fold_left delete_account (accounts_to_delete self) (storage evm)),
     self, false)
  | Some _ => (evm, self, false)
  end.

(** [BREAK_OPCODES] *)
Definition BREAK_OPCODES : gset Z :=
  {[ opcodes.RETURN; opcodes.STOP; opcodes.SUICIDE ]}.

(** ** The interpreter *)

(** A call that runs on a state of type [S]: it leaves a state, and either
    returns a value or raises.  State changes made before an exception is
    raised stay, as they do on Python's mutable objects.  [None] stands
    for a run that the fuel given to the interpreter did not cover. *)
Definition run (S A : Type) : Type := S -> option (S * result A).

(** An opcode function is called as [opcode_fn(environment=environment)];
    through the frame it reaches the host. *)
Definition opcode_fn : Type := run (EVM * ExecutionEnvironment) unit.

(** The module-level [apply_message(evm, message)] as a frame sees it. *)
Definition host_apply : Type :=
  EVM -> Message.t -> option (EVM * result ExecutionEnvironment).

Definition add_sub_environment (self sub_environment : ExecutionEnvironment) :=
  mkEnv (message self) (state self) (sub_environments self ++ [sub_environment])
        (output self) (error self) (logs self) (accounts_to_delete self).

(** [ExecutionEnvironment.apply_message]: the sub-frame is appended once
    the host's [apply_message] has returned it. *)
Definition ExecutionEnvironment_apply_message (apply_message : host_apply)
    (message : Message.t) : run (EVM * ExecutionEnvironment) ExecutionEnvironment :=
  fun '(evm, self) =>
    match apply_message evm message with
    | None => None
    | Some (evm', Raise e) => Some ((evm', self), Raise e)
    | Some (evm', Ok sub_environment) =>
      Some ((evm', add_sub_environment self sub_environment), Ok sub_environment)
    end.

(** Modelled from the spec: [evm.logic.invalid.invalid_op] is not part of
    the sources; the specification says the function returned for an
    opcode outside the valid range "fails InvalidOpcode". *)
Definition invalid_op (opcode : Z) : opcode_fn :=
  fun s => Some (s, Raise (VMErr InvalidOpcode)).

(** [GasMeter.wrap_opcode_fn], on the gas meter of the frame. *)
Definition wrap_opcode_fn (opcode : Z) (fn : opcode_fn) (gas_cost : Z) : opcode_fn :=
  fun '(evm, environment) =>
    match GasMeter.consume_gas (State.gas_meter (state environment)) gas_cost with
    | Raise e => Some ((evm, environment), Raise e)
    | Ok gas_meter =>
      let environment := set_gas_meter environment gas_meter in
      if GasMeter.is_out_of_gas gas_meter
      then Some ((evm, environment), Raise (VMErr OutOfGas))
      else fn (evm, environment)
    end.

Section Interpreter.

(** What [vm.py] imports from modules that are not part of the sources:
    [evm.validation.validate_opcode], the table [OPCODE_GAS_COSTS] and
    the table [OPCODE_LOGIC_FUNCTIONS].  A logic function reaches
    [apply_message] through [environment.apply_message], so the table
    takes it as an argument. *)
Variable validate_opcode : Z -> result unit.
Variable OPCODE_GAS_COSTS : Z -> Z.
Variable OPCODE_LOGIC_FUNCTIONS : host_apply -> Z -> opcode_fn.

(** [ExecutionEnvironment.get_opcode_fn], with [EVM.get_base_opcode_fn]
    and [EVM.get_opcode_gas_cost]. *)
Definition get_opcode_fn (apply_message : host_apply) (opcode : Z)
  : result opcode_fn :=
  match validate_opcode opcode with
  | Raise ValidationError => Ok (invalid_op opcode)
  | Raise e => Raise e
  | Ok _ =>
    let base_opcode_fn := OPCODE_LOGIC_FUNCTIONS apply_message opcode in
    let opcode_gas_cost := OPCODE_GAS_COSTS opcode in
    Ok (wrap_opcode_fn opcode base_opcode_fn opcode_gas_cost)
  end.

(** The [for] loop of [execute_vm].  The iterator over the code never
    ends, so the loop is left by [break] or by an exception only; [fuel]
    bounds the number of rounds.  The result is how the body of the
    [with] statement ends: normally, also after a [VMError] of an opcode
    was caught and stored in [environment.error], or with the exception
    that nothing caught.  The mnemonics that the loop and
    [wrap_opcode_fn] look up serve the log only; the lookups are taken to
    succeed. *)
Fixpoint run_opcodes (apply_message : host_apply) (fuel : nat)
    (s : EVM * ExecutionEnvironment)
  : option (EVM * ExecutionEnvironment * result unit) :=
  match fuel with
  | O => None
  | S fuel' =>
    let '(evm, environment) := s in
    let '(opcode, code') := CodeStream.next (State.code (state environment)) in
    let environment := set_code environment code' in
    match get_opcode_fn apply_message opcode with
    | Raise e => Some ((evm, environment), Raise e)
    | Ok opcode_fn =>
      match opcode_fn (evm, environment) with
      | None => None
      | Some ((evm', environment'), Raise (VMErr err)) =>
        Some ((evm', set_error environment' (Some err)), Ok tt)
      | Some (s', Raise e) => Some (s', Raise e)
      | Some (s', Ok _) =>
        if bool_decide (opcode ∈ BREAK_OPCODES) then Some (s', Ok tt)
        else run_opcodes apply_message fuel' s'
      end
    end
  end.

(** [execute_vm]: the loop runs inside [with environment:], so
    [__exit__] sees how the loop ended. *)
Definition execute_vm (apply_message : host_apply) (fuel : nat)
    (evm : EVM) (environment : ExecutionEnvironment)
  : option (EVM * result ExecutionEnvironment) :=
  match run_opcodes apply_message fuel (evm, environment) with
  | None => None
  | Some ((evm, environment), body) =>
    let exc := match body with Ok _ => None | Raise e => Some e end in
    let '(evm, environment, suppress) := __exit__ evm environment exc in
    match exc with
    | None => Some (evm, Ok environment)
    | Some e => if suppress then Some (evm, Ok environment) else Some (evm, Raise e)
    end
  end.

(** [apply_message].  The name [InsufficientFunds] is bound nowhere in
    [vm.py]: it is neither defined there nor in the list imported from
    [evm.exceptions], so the [raise] statement that mentions it raises
    [NameError].  [fuel] bounds the rounds of each loop and the nesting
    of calls. *)
Fixpoint apply_message (fuel : nat) (evm : EVM) (message : Message.t)
  : option (EVM * result ExecutionEnvironment) :=
  let snapshot := EVM_snapshot evm in
  if Message.depth message >=? 1024
  then Some (evm, Raise (VMErr StackDepthLimit))
  else
    let transfer : EVM * result unit :=
      if Message.value message =? 0 then (evm, Ok tt)
      else
        let sender_balance :=
          Storage.get_balance (storage evm) (Message.sender message) in
        if sender_balance <? Message.value message
        then (evm, Raise (NameError "InsufficientFunds"))
        else
          let account_balance :=
            Storage.get_balance (storage evm) (Message.account message) in
          let sender_balance := sender_balance - Message.value message in
          let account_balance := account_balance + Message.value message in
          let evm := set_storage evm
            (Storage.set_balance (storage evm) (Message.sender message)
                                 sender_balance) in
          let evm := set_storage evm
            (Storage.set_balance (storage evm) (Message.account message)
                                 account_balance) in
          (evm, Ok tt) in
    match transfer with
    | (evm, Raise e) => Some (evm, Raise e)
    | (evm, Ok _) =>
      match setup_environment evm message with
      | Raise e => Some (evm, Raise e)
      | Ok environment =>
        match fuel with
        | O => None
        | S fuel' =>
          match execute_vm (apply_message fuel') fuel' evm environment with
          | None => None
          | Some (evm, Raise e) => Some (evm, Raise e)
          | Some (evm, Ok result_environment) =>
            match error result_environment with
            | Some _ => Some (EVM_revert evm snapshot, Ok result_environment)
            | None => Some (evm, Ok result_environment)
            end
          end
        end
      end
    end.

(** [ExecutionEnvironment.execute] *)
Definition execute (fuel : nat) (evm : EVM) (self : ExecutionEnvironment)
  : option (EVM * result ExecutionEnvironment) :=
  execute_vm (apply_message fuel) fuel evm self.

End Interpreter.

(** ** A small host for the examples *)

(** An opcode table small enough to run by hand, used only to run the
    interpreter on concrete inputs.  Every byte is an opcode and costs 3
    gas, except STOP, which is free.  PUSH1 pushes the next byte of the
    code; CALL (0xf1) sends a message without value to the account of the
    frame, one level deeper, and lets every exception of the call pass;
    all other opcodes do nothing. *)
Module Example.

Definition validate_opcode (opcode : Z) : result unit := Ok tt.

Definition OPCODE_GAS_COSTS (opcode : Z) : Z :=
  if opcode =? opcodes.STOP then 0 else 3.

Definition set_stack (self : ExecutionEnvironment) (s : Stack.t) :=
  set_state self (State.mk (State.memory (state self)) s
                           (State.gas_meter (state self))
                           (State.code (state self))).

Definition push1 : opcode_fn :=
  fun '(evm, environment) =>
    let '(value, code') := CodeStream.read (State.code (state environment)) 1 in
    let environment := set_code environment code' in
    let '(stack', r) := Stack.push (State.stack (state environment)) value in
    Some ((evm, set_stack environment stack'), r).

Definition call (apply_message : host_apply) : opcode_fn :=
  fun '(evm, environment) =>
    match create_message environment 100
            (Message.account (message environment)) 0 [] with
    | Raise e => Some ((evm, environment), Raise e)
    | Ok child_message =>
      match ExecutionEnvironment_apply_message apply_message child_message
              (evm, environment) with
      | None => None
      | Some (s, Raise e) => Some (s, Raise e)
      | Some (s, Ok _) => Some (s, Ok tt)
      end
    end.

Definition OPCODE_LOGIC_FUNCTIONS (apply_message : host_apply) (opcode : Z)
  : opcode_fn :=
  if opcode =? opcodes.PUSH1 then push1
  else if opcode =? 0xf1 then call apply_message
  else fun s => Some (s, Ok tt).

Definition apply_message : nat -> host_apply :=
  apply_message validate_opcode OPCODE_GAS_COSTS OPCODE_LOGIC_FUNCTIONS.

Definition execute : nat -> host_apply -> EVM -> ExecutionEnvironment
                     -> option (EVM * result ExecutionEnvironment) :=
  fun fuel apply => execute_vm validate_opcode OPCODE_GAS_COSTS
                               OPCODE_LOGIC_FUNCTIONS apply fuel.

(** Four accounts: [alice] holds 10, the code PUSH1 1, PUSH1 2, ADD and
    one storage slot; [bob] holds 5 and [carol] nothing; [dave] holds 7
    and the code CALL, STOP. *)
Definition alice : address := repeat xaa 20.
Definition bob : address := repeat xbb 20.
Definition carol : address := repeat xcc 20.
Definition dave : address := repeat xdd 20.

Definition world : EVM :=
  mkEVM (Storage.mk {[ alice := 10; bob := 5; dave := 7 ]}
                    {[ alice := [x60; x01; x60; x02; x01]; dave := [xf1; x00] ]}
                    {[ alice := {[ 0 := 42 ]} ]})
        (ChainEnvironment.mk 1 1000000 0).

Definition msg (sender account : address) (value gas depth : Z) : Message.t :=
  Message.mk gas 1 sender account sender value [] depth.

(** A frame of [dave] at depth 1023, as [setup_environment] builds it,
    and the message that [create_message] makes of it for a call to
    [dave]. *)
Definition parent : ExecutionEnvironment :=
  mkEnv (msg bob dave 0 100 1023)
        (State.mk Memory.init Stack.init (GasMeter.mk 100 [] [] [])
                  (CodeStream.init [xf1; x00]))
        [] [] None [] [].

Definition child : Message.t := Message.mk 100 1 bob dave dave 0 [] 1024.

(** A frame for a message without value to [alice], with 2 gas, on
    which the deletion of [alice] in favour of [bob] has been
    registered.  Its first opcode, PUSH1, costs 3 gas. *)
Definition doomed_frame : result ExecutionEnvironment :=
  let* environment := setup_environment world (msg carol alice 0 2 0) in
  register_account_for_deletion environment bob.

(** The host and the frame that a run returned. *)
Definition host_after (r : option (EVM * result ExecutionEnvironment)) : EVM :=
  match r with
  | Some (evm, _) => evm
  | None => world
  end.

Definition frame_after (r : option (EVM * result ExecutionEnvironment))
  : ExecutionEnvironment :=
  match r with
  | Some (_, Ok frame) => frame
  | _ => parent
  end.

End Example.

(** ** Sequences of calls, for the properties quantified over them *)

(** A call of [Stack.push] or [Stack.pop]. *)
Inductive stack_call : Type :=
| Push (value : bytes)
| Pop.

(** The stack after a sequence of calls, with the numbers of pushes and of
    pops that returned normally.  A call that raises leaves the stack as
    the method left it and the sequence goes on. *)
Record stack_trace : Type := mkStackTrace {
  traced_stack : Stack.t;
  pushes : Z;
  pops : Z
}.

Definition stack_step (tr : stack_trace) (c : stack_call) : stack_trace :=
  match c with
  | Push value =>
    match Stack.push (traced_stack tr) value with
    | (s, Ok _) => mkStackTrace s (pushes tr + 1) (pops tr)
    | (s, Raise _) => mkStackTrace s (pushes tr) (pops tr)
    end
  | Pop =>
    match Stack.pop (traced_stack tr) with
    | (s, Ok _) => mkStackTrace s (pushes tr) (pops tr + 1)
    | (s, Raise _) => mkStackTrace s (pushes tr) (pops tr)
    end
  end.

Definition run_stack_calls (calls : list stack_call) : stack_trace :=
  fold_left stack_step calls (mkStackTrace Stack.init 0 0).

(** A call of [Memory.extend] or [Memory.write]; a [write] that raises
    leaves the memory as it was. *)
Inductive memory_call : Type :=
| Extend (start_position size : Z)
| Write (start_position size : Z) (value : bytes).

Definition memory_step (m : Memory.t) (c : memory_call) : Memory.t :=
  match c with
  | Extend start_position size => Memory.extend m start_position size
  | Write start_position size value =>
    match Memory.write m start_position size value with
    | Ok m' => m'
    | Raise _ => m
    end
  end.

Definition run_memory_calls (calls : list memory_call) : Memory.t :=
  fold_left memory_step calls Memory.init.

(** A call of one of the three write methods of [GasMeter]. *)
Inductive gas_call : Type :=
| Consume (amount : Z)
| Return (amount : Z)
| Refund (amount : Z).

(** The meter after a sequence of calls, with the amounts of the calls
    that returned normally, per method. *)
Record gas_trace : Type := mkGasTrace {
  traced_meter : GasMeter.t;
  consumed : list Z;
  returned : list Z;
  refunded : list Z
}.

Definition gas_step (tr : gas_trace) (c : gas_call) : gas_trace :=
  match c with
  | Consume amount =>
    match GasMeter.consume_gas (traced_meter tr) amount with
    | Ok g => mkGasTrace g (consumed tr ++ [amount]) (returned tr) (refunded tr)
    | Raise _ => tr
    end
  | Return amount =>
    match GasMeter.return_gas (traced_meter tr) amount with
    | Ok g => mkGasTrace g (consumed tr) (returned tr ++ [amount]) (refunded tr)
    | Raise _ => tr
    end
  | Refund amount =>
    match GasMeter.refund_gas (traced_meter tr) amount with
    | Ok g => mkGasTrace g (consumed tr) (returned tr) (refunded tr ++ [amount])
    | Raise _ => tr
    end
  end.

Definition run_gas_calls (g : GasMeter.t) (calls : list gas_call) : gas_trace :=
  fold_left gas_step calls (mkGasTrace g [] [] []).

(** ** Notions the properties of [CodeStream] are stated with *)

(** The bytes of the code. *)
Definition code_of (cs : CodeStream.t) : bytes :=
  BytesIO.getvalue (CodeStream.stream cs).

(** The cursor of a stream that is used through [CodeStream] only stays
    within the code. *)
Definition pc_in_code (cs : CodeStream.t) : Prop :=
  0 <= CodeStream.pc cs <= CodeStream.length cs.

(** The bytes [is_valid_opcode] reads: up to 32 of them, ending just
    before [position]. *)
Definition prefix_before (cs : CodeStream.t) (position : Z) : bytes :=
  take (Z.to_nat (Z.min position 32))
       (drop (Z.to_nat (Z.max 0 (position - 32))) (code_of cs)).

(** The byte at [q] is a PUSH1..PUSH32 opcode and [position] is one of the
    bytes of its immediate operand. *)
Definition in_immediate_of (cs : CodeStream.t) (position q : Z) : Prop :=
  exists b : byte,
    0 <= q < position
    /\ code_of cs !! Z.to_nat q = Some b
    /\ opcodes.PUSH1 <= ord b <= opcodes.PUSH32
    /\ position <= q + (1 + ord b - opcodes.PUSH1).

(** The loop of [is_valid_opcode] when the recursive calls answer with
    [valid] and leave the stream alone. *)
Fixpoint scan_answer (valid : Z -> bool) (position offset : Z)
    (rprefix : list byte) : bool :=
  match rprefix with
  | [] => true
  | b :: rest =>
    if (ord b <? opcodes.PUSH1) || (ord b >? opcodes.PUSH32)
    then scan_answer valid position (offset + 1) rest
    else if 1 + ord b - opcodes.PUSH1 <=? offset
    then scan_answer valid position (offset + 1) rest
    else if negb (valid (position - 1 - offset))
    then scan_answer valid position (offset + 1) rest
    else false
  end.

(** The answer of [is_valid_opcode], [true] where it gives none. *)
Definition valid_at (cs : CodeStream.t) (position : Z) : bool :=
  match CodeStream.is_valid_opcode cs position with
  | Some (Ok (b, _)) => b
  | _ => true
  end.

(** The number of immediate bytes that follow the opcode byte [b]: [n]
    for PUSHn, none for every other byte. *)
Definition immediate_size (b : byte) : nat :=
  if (opcodes.PUSH1 <=? ord b) && (ord b <=? opcodes.PUSH32)
  then Z.to_nat (1 + ord b - opcodes.PUSH1)
  else 0%nat.

(** The linear disassembly of a code, read from its first byte on: for
    each byte, whether an instruction starts there.  [skip] counts the
    immediate bytes still to pass. *)
Fixpoint sweep (skip : nat) (code : list byte) : list bool :=
  match code with
  | [] => []
  | b :: rest =>
    match skip with
    | O => true :: sweep (immediate_size b) rest
    | S skip' => false :: sweep skip' rest
    end
  end.

Definition instruction_starts (code : bytes) : list bool := sweep 0 code.

(** ** Notions of the further properties *)

(** The stream over [code_bytes] with its cursor at [p]. *)
Definition stream_at (code_bytes : bytes) (p : nat) : CodeStream.t :=
  CodeStream.mk (BytesIO.mk code_bytes (Z.of_nat p)).

(** [n] successive fetches, as the [for] loop of [execute_vm] makes them
    when no opcode moves the cursor: the opcodes fetched and the stream
    after the last one. *)
Fixpoint fetch (n : nat) (cs : CodeStream.t) : list Z * CodeStream.t :=
  match n with
  | O => ([], cs)
  | S n' =>
    let '(opcode, cs') := CodeStream.next cs in
    let '(opcodes, cs'') := fetch n' cs' in
    (opcode :: opcodes, cs'')
  end.

(** Pushing the words of a list, first to last, and popping [n] items:
    both stop at the first call that raises. *)
Fixpoint push_all (s : Stack.t) (words : list bytes) : Stack.t * result unit :=
  match words with
  | [] => (s, Ok tt)
  | w :: rest =>
    match Stack.push s w with
    | (s', Ok _) => push_all s' rest
    | (s', Raise e) => (s', Raise e)
    end
  end.

Fixpoint pop_n (n : nat) (s : Stack.t) : Stack.t * result (list bytes) :=
  match n with
  | O => (s, Ok [])
  | S n' =>
    match Stack.pop s with
    | (s', Raise e) => (s', Raise e)
    | (s', Ok value) =>
      match pop_n n' s' with
      | (s'', Ok values) => (s'', Ok (value :: values))
      | (s'', Raise e) => (s'', Raise e)
      end
    end
  end.

(** A frame on which [register_account_for_deletion] is called for each
    beneficiary of a list, a call that raises leaving the frame as it
    was. *)
Definition register_step (self : ExecutionEnvironment) (beneficiary : address)
  : ExecutionEnvironment :=
  match register_account_for_deletion self beneficiary with
  | Ok self' => self'
  | Raise _ => self
  end.

Definition register_all (self : ExecutionEnvironment) (beneficiaries : list address)
  : ExecutionEnvironment :=
  fold_left register_step beneficiaries self.

(** What [Message.__init__] checks. *)
Definition valid_message (m : Message.t) : Prop :=
  0 <= Message.gas m <= UINT_256_MAX
  /\ 0 <= Message.gas_price m <= UINT_256_MAX
  /\ len (Message.origin m) = 20
  /\ len (Message.account m) = 20
  /\ len (Message.sender m) = 20
  /\ 0 <= Message.value m <= UINT_256_MAX
  /\ 0 <= Message.depth m.

(** More frames on the example host: a frame of [carol], who has no code,
    and a frame with the code CALL whose account is not a 20-byte
    address, so that [create_message] refuses the message of the call. *)
Module Scenario.

Definition idle_frame : ExecutionEnvironment :=
  mkEnv (Example.msg Example.bob Example.carol 0 10 0)
        (State.mk Memory.init Stack.init (GasMeter.mk 10 [] [] [])
                  (CodeStream.init []))
        [] [] None [] [].

Definition odd_frame : ExecutionEnvironment :=
  mkEnv (Example.msg Example.bob [x01] 0 100 0)
        (State.mk Memory.init Stack.init (GasMeter.mk 100 [] [] [])
                  (CodeStream.init [xf1]))
        [] [] None [] [].

(** A frame of [alice] with 2 gas, and one whose first byte, 0xfe, the
    validation below refuses. *)
Definition poor_frame : ExecutionEnvironment :=
  mkEnv (Example.msg Example.bob Example.alice 0 2 0)
        (State.mk Memory.init Stack.init (GasMeter.mk 2 [] [] [])
                  (CodeStream.init [x60; x01; x60; x02; x01]))
        [] [] None [] [].

Definition strict_validate_opcode (opcode : Z) : result unit :=
  if opcode =? 0xfe then Raise ValidationError else Ok tt.

Definition bad_frame : ExecutionEnvironment :=
  mkEnv (Example.msg Example.bob Example.alice 0 50 0)
        (State.mk Memory.init Stack.init (GasMeter.mk 50 [] [] [])
                  (CodeStream.init [xfe; x00]))
        [] [] None [] [].

End Scenario.

(** * Properties *)

(** ** Lists, slices and sums *)

Lemma len_nonneg {A} (l : list A) : 0 <= len l.
Proof. unfold len. lia. Qed.

Lemma len_app {A} (l1 l2 : list A) : len (l1 ++ l2) = len l1 + len l2.
Proof. unfold len. rewrite length_app. lia. Qed.

Lemma len_snoc {A} (l : list A) (x : A) : len (l ++ [x]) = len l + 1.
Proof. rewrite len_app. reflexivity. Qed.

Lemma sum_from (xs : list Z) (a : Z) : fold_left Z.add xs a = a + sum xs.
Proof.
  unfold sum. revert a. induction xs as [| x xs IH]; intros a; simpl.
  - lia.
  - rewrite (IH (a + x)), (IH (0 + x)). lia.
Qed.

Lemma sum_snoc (xs : list Z) (a : Z) : sum (xs ++ [a]) = sum xs + a.
Proof. unfold sum. rewrite fold_left_app. simpl. reflexivity. Qed.

Lemma py_slice_nonneg {A} (l : list A) (lo hi : Z) :
  0 <= lo -> lo <= hi ->
  py_slice l lo hi = take (Z.to_nat (hi - lo)) (drop (Z.to_nat lo) l).
Proof.
  intros Hlo Hhi. unfold py_slice, slice_bound.
  pose proof (len_nonneg l) as Hl. unfold len in *.
  destruct (Z.ltb_spec lo 0); [lia |].
  destruct (Z.ltb_spec hi 0); [lia |].
  destruct (Z.le_gt_cases lo (Z.of_nat (length l))) as [Hin | Hout].
  - rewrite (Z.min_l lo) by lia.
    destruct (Z.le_gt_cases hi (Z.of_nat (length l))).
    + rewrite Z.min_l by lia. reflexivity.
    + rewrite Z.min_r by lia.
      rewrite !take_ge; [reflexivity | |]; rewrite length_drop; lia.
  - rewrite !Z.min_r by lia.
    rewrite !drop_ge by lia. rewrite !take_nil. reflexivity.
Qed.

(** ** Memory *)

(** C10.  [Memory.read(start, size)] raises nothing and, for natural
    [start] and [size] on a memory of [L] bytes, returns the bytes at the
    positions of [start, min(start + size, L)): byte [i] of the result is
    byte [start + i] of the memory, the result has
    [max(0, min(start + size, L) - start)] bytes, which is less than
    [size] when a non-empty range passes the end, and none when
    [start >= L]. *)
Theorem C10_memory_read_clamps (m : Memory.t) (start size : Z) :
  0 <= start -> 0 <= size ->
  let r := Memory.read m start size in
  let L := Memory.length m in
  r = take (Z.to_nat size) (drop (Z.to_nat start) (Memory.bytes_ m))
  /\ len r = Z.max 0 (Z.min (start + size) L - start)
  /\ (forall i : nat, (i < length r)%nat ->
        r !! i = Memory.bytes_ m !! (Z.to_nat start + i)%nat)
  /\ (L < start + size -> 0 < size -> len r < size)
  /\ (L <= start -> r = []).
Proof.
  intros Hs Hz r L. subst r L. unfold Memory.read, Memory.length.
  rewrite py_slice_nonneg by lia.
  replace (start + size - start) with size by lia.
  set (b := Memory.bytes_ m).
  assert (Hlen : len (take (Z.to_nat size) (drop (Z.to_nat start) b))
                 = Z.max 0 (Z.min (start + size) (len b) - start)).
  { unfold len. rewrite length_take, length_drop. lia. }
  split; [reflexivity |]. split; [exact Hlen |]. split; [| split].
  - intros i Hi. rewrite length_take in Hi.
    rewrite lookup_take_lt by lia. apply lookup_drop.
  - intros Hover Hpos. rewrite Hlen. lia.
  - intros Hout. apply length_zero_iff_nil.
    unfold len in Hlen, Hout. rewrite length_take, length_drop in *. lia.
Qed.

Lemma C10_memory_read_clamps_witness :
  let m := Memory.mk [x01; x02; x03; x04] in
  Memory.read m 2 5 = [x03; x04] /\ len (Memory.read m 2 5) < 5
  /\ Memory.read m 4 1 = [].
Proof.
  intros m.
  destruct (C10_memory_read_clamps m 2 5 ltac:(lia) ltac:(lia))
    as (Hr & _ & _ & Hshort & _).
  destruct (C10_memory_read_clamps m 4 1 ltac:(lia) ltac:(lia))
    as (_ & _ & _ & _ & Hempty).
  split; [exact Hr |]. split.
  - apply Hshort; vm_compute; reflexivity.
  - apply Hempty. vm_compute. discriminate.
Defined.

(** What a [write] that returns has checked, and the bytes it leaves. *)
Lemma write_returns (m m' : Memory.t) (start size : Z) (value : bytes) :
  Memory.write m start size value = Ok m' ->
  0 <= start /\ 0 <= size /\ len value = size /\ start + size <= Memory.length m
  /\ Memory.bytes_ m'
     = take (Z.to_nat start) (Memory.bytes_ m) ++ value
       ++ drop (Z.to_nat (start + size)) (Memory.bytes_ m).
Proof.
  unfold Memory.write, validate_uint256, validate_length, validate_lte, bind.
  destruct (is_uint256 start) eqn:E1; [| discriminate].
  destruct (is_uint256 size) eqn:E2; [| discriminate].
  destruct (Z.eqb_spec (len value) size) as [E3 | E3]; [| discriminate].
  destruct (Z.leb_spec (start + size) (Memory.length m)) as [E4 | E4]; [| discriminate].
  intros H. injection H as <-. simpl.
  unfold is_uint256 in E1, E2.
  apply andb_true_iff in E1 as [E1 _]. apply andb_true_iff in E2 as [E2 _].
  apply Z.leb_le in E1, E2. unfold Memory.length in *.
  rewrite !py_slice_nonneg by lia. rewrite drop_0, Z.sub_0_r.
  rewrite (take_ge (drop _ _)) by (rewrite length_drop; unfold len in *; lia).
  repeat split; try assumption; lia.
Qed.

(** A [write] followed by a [read] of the same range returns the value
    written, and a [write] keeps the length of the memory. *)
Theorem memory_write_read (m m' : Memory.t) (start size : Z) (value : bytes) :
  Memory.write m start size value = Ok m' ->
  Memory.read m' start size = value /\ Memory.length m' = Memory.length m.
Proof.
  intros H. apply write_returns in H as (Hs & Hz & Hv & Hle & Hb).
  unfold Memory.read, Memory.length in *. rewrite Hb.
  rewrite py_slice_nonneg by lia. replace (start + size - start) with size by lia.
  unfold len in *.
  assert (Hpre : length (take (Z.to_nat start) (Memory.bytes_ m)) = Z.to_nat start).
  { rewrite length_take. lia. }
  split.
  - rewrite drop_app_length' by (symmetry; exact Hpre).
    rewrite take_app_length' by lia. reflexivity.
  - rewrite !length_app, Hpre, length_drop. lia.
Qed.

Lemma memory_write_read_witness :
  let m := Memory.extend Memory.init 0 4 in
  exists m', Memory.write m 2 3 [x0a; x0b; x0c] = Ok m'
             /\ Memory.read m' 2 3 = [x0a; x0b; x0c]
             /\ Memory.length m' = 32.
Proof.
  intros m. eexists. split; [reflexivity |].
  destruct (memory_write_read m _ 2 3 [x0a; x0b; x0c] eq_refl) as [Hr Hl].
  split; [exact Hr | rewrite Hl; reflexivity].
Defined.

Lemma ceil32_multiple (v : Z) : ceil32 v mod 32 = 0.
Proof. unfold ceil32. rewrite Z.mul_comm. apply Z_mod_mult. Qed.

Lemma memory_step_length (m : Memory.t) (c : memory_call) :
  Memory.length m mod 32 = 0 ->
  Memory.length (memory_step m c) mod 32 = 0
  /\ Memory.length m <= Memory.length (memory_step m c).
Proof.
  intros Hm. destruct c as [start size | start size value]; simpl.
  - unfold Memory.extend. destruct (size =? 0); [split; [exact Hm | lia] |].
    destruct (Z.leb_spec (ceil32 (start + size)) (Memory.length m));
      [split; [exact Hm | lia] |].
    unfold Memory.length, len in *. simpl.
    rewrite length_app, repeat_length.
    replace (Z.of_nat (length (Memory.bytes_ m)
                       + Z.to_nat (ceil32 (start + size)
                                   - Z.of_nat (length (Memory.bytes_ m)))))
      with (ceil32 (start + size)) by lia.
    split; [apply ceil32_multiple | lia].
  - destruct (Memory.write m start size value) as [m' |] eqn:Hw; [| split; [exact Hm | lia]].
    apply memory_write_read in Hw as [_ Hl]. rewrite Hl. split; [exact Hm | lia].
Qed.

(** After any sequence of [extend] and [write] calls on a fresh memory
    the length is a multiple of 32, and no call of the sequence lowers
    it. *)
Theorem memory_length_multiple_of_32 (calls : list memory_call) (c : memory_call) :
  let m := run_memory_calls calls in
  Memory.length m mod 32 = 0
  /\ Memory.length m <= Memory.length (memory_step m c).
Proof.
  intros m.
  assert (Hm : Memory.length m mod 32 = 0).
  { subst m. unfold run_memory_calls.
    assert (Hgen : forall m0, Memory.length m0 mod 32 = 0 ->
                              Memory.length (fold_left memory_step calls m0) mod 32 = 0).
    { induction calls as [| c0 calls IH]; intros m0 H0; simpl; [exact H0 |].
      apply IH. apply memory_step_length, H0. }
    apply Hgen. reflexivity. }
  split; [exact Hm |]. apply memory_step_length, Hm.
Qed.

(** [State.extend_memory] changes the memory only when it returns: a call
    that raises, [OutOfGas] included, has appended no byte; a call that
    returns has extended the memory as [Memory.extend] does, and has
    changed neither the stack nor the code. *)
Theorem extend_memory_all_or_nothing (memory_gas_cost : Z -> Z) (s : State.t)
    (start_position size : Z) :
  let r := extend_memory memory_gas_cost s start_position size in
  (forall e, snd r = Raise e -> State.memory (fst r) = State.memory s)
  /\ (snd r = Ok tt ->
      State.memory (fst r) = Memory.extend (State.memory s) start_position size)
  /\ State.stack (fst r) = State.stack s
  /\ State.code (fst r) = State.code s.
Proof.
  unfold extend_memory.
  destruct (validate_uint256 start_position); simpl;
    [| repeat split; intros; first [reflexivity | discriminate]].
  destruct (validate_uint256 size); simpl;
    [| repeat split; intros; first [reflexivity | discriminate]].
  destruct (Z.eqb_spec size 0) as [-> | Hsize]; simpl;
    [repeat split; intros; first [reflexivity | discriminate] |].
  destruct (_ <? _); simpl.
  - destruct (GasMeter.consume_gas (State.gas_meter s) _) as [g |]; simpl;
      [| repeat split; intros; first [reflexivity | discriminate]].
    destruct (GasMeter.is_out_of_gas g); simpl;
      repeat split; intros; first [reflexivity | discriminate].
  - destruct (GasMeter.is_out_of_gas (State.gas_meter s)); simpl;
      repeat split; intros; first [reflexivity | discriminate].
Qed.

(** ** Stack *)

Lemma push_full (s : Stack.t) (value : bytes) :
  1024 <= Stack.length s ->
  Stack.push s value = (s, Raise (VMErr FullStack)).
Proof.
  intros H. unfold Stack.push.
  destruct (Z.gtb_spec (Stack.length s + 1) 1024); [reflexivity | lia].
Qed.

Lemma push_word (s : Stack.t) (value : bytes) :
  Stack.length s < 1024 -> len value <= 32 ->
  Stack.push s value = (Stack.mk (Stack.values s ++ [value]), Ok tt).
Proof.
  intros H Hv. unfold Stack.push, validate_lte.
  destruct (Z.gtb_spec (Stack.length s + 1) 1024); [lia |].
  destruct (Z.leb_spec (len value) 32); [reflexivity | lia].
Qed.

Lemma push_too_wide (s : Stack.t) (value : bytes) :
  Stack.length s < 1024 -> 32 < len value ->
  Stack.push s value = (s, Raise ValidationError).
Proof.
  intros H Hv. unfold Stack.push, validate_lte.
  destruct (Z.gtb_spec (Stack.length s + 1) 1024); [lia |].
  destruct (Z.leb_spec (len value) 32); [lia | reflexivity].
Qed.

Lemma pop_empty (s : Stack.t) :
  Stack.length s = 0 -> Stack.pop s = (s, Raise (VMErr InsufficientStack)).
Proof.
  intros H. unfold Stack.pop. destruct s as [vs]. simpl in *.
  destruct vs; [reflexivity | discriminate].
Qed.

Lemma pop_top (vs : list bytes) (value : bytes) :
  Stack.pop (Stack.mk (vs ++ [value])) = (Stack.mk vs, Ok value).
Proof.
  unfold Stack.pop. simpl. rewrite last_snoc, removelast_last. reflexivity.
Qed.

(** What one call does to the length and to the two counters. *)
Definition stack_inv (tr : stack_trace) : Prop :=
  Stack.length (traced_stack tr) = pushes tr - pops tr
  /\ 0 <= Stack.length (traced_stack tr) <= 1024.

Lemma stack_step_inv (tr : stack_trace) (c : stack_call) :
  stack_inv tr -> stack_inv (stack_step tr c).
Proof.
  unfold stack_inv. intros [Hlen Hrange]. destruct tr as [s np nq]. simpl in *.
  destruct c as [value |]; simpl.
  - destruct (Z.le_gt_cases 1024 (Stack.length s)).
    + rewrite push_full by lia. split; simpl; lia.
    + destruct (Z.le_gt_cases (len value) 32).
      * rewrite push_word by lia. simpl. unfold Stack.length in *. simpl.
        rewrite len_snoc. split; lia.
      * rewrite push_too_wide by lia. split; simpl; lia.
  - destruct s as [vs]. destruct (last vs) as [top |] eqn:Hlast.
    + apply last_Some in Hlast as [vs' ->]. rewrite pop_top.
      unfold Stack.length in *. simpl in *. rewrite len_snoc in *.
      pose proof (len_nonneg vs'). split; simpl; lia.
    + apply last_None in Hlast as ->. rewrite pop_empty by reflexivity.
      split; simpl; lia.
Qed.

Lemma stack_calls_inv (calls : list stack_call) (tr : stack_trace) :
  stack_inv tr -> stack_inv (fold_left stack_step calls tr).
Proof.
  revert tr. induction calls as [| c calls IH]; intros tr H; simpl.
  - exact H.
  - apply IH, stack_step_inv, H.
Qed.

(** C8.  After any sequence of [push] and [pop] calls on a fresh stack the
    length is the number of pushes that succeeded minus the number of pops
    that succeeded, and it lies in [0, 1024].  At length 1023 a push of a
    valid word succeeds; at length 1024 a push raises [FullStack] and on
    the empty stack a pop raises [InsufficientStack], both leaving the
    stack as it was. *)
Theorem C8_stack_length_bounds (calls : list stack_call) :
  let tr := run_stack_calls calls in
  let s := traced_stack tr in
  Stack.length s = pushes tr - pops tr
  /\ 0 <= Stack.length s <= 1024
  /\ (Stack.length s = 1023 -> forall value, len value <= 32 ->
        exists s', Stack.push s value = (s', Ok tt) /\ Stack.length s' = 1024)
  /\ (Stack.length s = 1024 -> forall value,
        Stack.push s value = (s, Raise (VMErr FullStack)))
  /\ (Stack.length s = 0 -> Stack.pop s = (s, Raise (VMErr InsufficientStack))).
Proof.
  intros tr s.
  assert (Hinv : stack_inv tr).
  { apply stack_calls_inv. split; vm_compute; [reflexivity | split; discriminate]. }
  destruct Hinv as [Hlen Hrange].
  split; [exact Hlen |]. split; [exact Hrange |]. split; [| split].
  - intros H value Hv. eexists. split; [apply push_word; lia |].
    unfold Stack.length in *. simpl. rewrite len_snoc. lia.
  - intros H value. apply push_full. lia.
  - apply pop_empty.
Qed.

Lemma C8_stack_length_bounds_witness :
  let full := traced_stack (run_stack_calls (repeat (Push [x2a]) 1024)) in
  let almost := traced_stack (run_stack_calls (repeat (Push [x2a]) 1023)) in
  let fresh := traced_stack (run_stack_calls [Push [x2a]; Pop]) in
  Stack.push full [x01] = (full, Raise (VMErr FullStack))
  /\ (exists s', Stack.push almost [x01] = (s', Ok tt) /\ Stack.length s' = 1024)
  /\ Stack.pop fresh = (fresh, Raise (VMErr InsufficientStack)).
Proof.
  intros full almost fresh.
  destruct (C8_stack_length_bounds (repeat (Push [x2a]) 1024))
    as (_ & _ & _ & Hfull & _).
  destruct (C8_stack_length_bounds (repeat (Push [x2a]) 1023))
    as (_ & _ & Halmost & _ & _).
  destruct (C8_stack_length_bounds [Push [x2a]; Pop])
    as (_ & _ & _ & _ & Hfresh).
  split; [| split].
  - apply Hfull. vm_compute. reflexivity.
  - apply Halmost; vm_compute; [reflexivity | discriminate].
  - apply Hfresh. vm_compute. reflexivity.
Defined.

(** *** SWAP and DUP *)

Lemma py_position_from_end {A} (l : list A) (i : Z) :
  - len l <= i < 0 ->
  py_position l i = Some (Z.to_nat (i + len l)).
Proof.
  intros Hi. unfold py_position.
  destruct (Z.leb_spec 0 i); [lia |]. simpl.
  destruct (Z.ltb_spec i 0); [| lia].
  destruct (Z.leb_spec (- len l) i); [| lia]. reflexivity.
Qed.

Lemma py_position_too_deep {A} (l : list A) (i : Z) :
  i < - len l -> py_position l i = None.
Proof.
  intros Hi. pose proof (len_nonneg l). unfold py_position.
  destruct (Z.leb_spec 0 i); [lia |]. simpl.
  destruct (Z.leb_spec (- len l) i); [lia |].
  rewrite andb_false_r. reflexivity.
Qed.

(** [swap(n)], for [n >= 1], on a stack of more than [n] items exchanges
    the top with the item [n] places below it and changes nothing else;
    on a stack of [n] items or fewer it raises [InsufficientStack] and
    leaves the stack as it was. *)
Theorem stack_swap_spec (s : Stack.t) (n : Z) :
  1 <= n ->
  (n < Stack.length s ->
     exists s', Stack.swap s n = (s', Ok tt)
       /\ Stack.length s' = Stack.length s
       /\ py_get (Stack.values s') (-1) = py_get (Stack.values s) (- (n + 1))
       /\ py_get (Stack.values s') (- (n + 1)) = py_get (Stack.values s) (-1)
       /\ (forall i, - Stack.length s <= i < -1 -> i <> - (n + 1) ->
             py_get (Stack.values s') i = py_get (Stack.values s) i))
  /\ (Stack.length s <= n ->
      Stack.swap s n = (s, Raise (VMErr InsufficientStack))).
Proof.
  intros Hn. destruct s as [vs]. unfold Stack.length, Stack.swap. simpl.
  replace (-1 * n - 1) with (- (n + 1)) by lia.
  split.
  - intros Hlen.
    assert (Hget : forall l : list bytes, len l = len vs ->
              forall i, - len vs <= i < 0 ->
                py_get l i = l !! Z.to_nat (i + len vs)).
    { intros l Hl i Hi. unfold py_get.
      rewrite py_position_from_end by lia. rewrite Hl. reflexivity. }
    assert (Hset : forall (l : list bytes) (x : bytes), len l = len vs ->
              forall i, - len vs <= i < 0 ->
                py_set l i x = Some (<[Z.to_nat (i + len vs) := x]> l)).
    { intros l x Hl i Hi. unfold py_set.
      rewrite py_position_from_end by lia. rewrite Hl. reflexivity. }
    rewrite (Hget vs eq_refl (- (n + 1))) by lia.
    rewrite (Hget vs eq_refl (-1)) by lia.
    destruct (lookup_lt_is_Some_2 vs (Z.to_nat (- (n + 1) + len vs))) as [a Ha];
      [unfold len in *; lia |].
    destruct (lookup_lt_is_Some_2 vs (Z.to_nat (-1 + len vs))) as [b Hb];
      [unfold len in *; lia |].
    rewrite Ha, Hb. rewrite (Hset vs a eq_refl (-1)) by lia.
    assert (Hl1 : len (<[Z.to_nat (-1 + len vs) := a]> vs) = len vs).
    { unfold len. rewrite length_insert. reflexivity. }
    rewrite (Hset _ b Hl1 (- (n + 1))) by lia.
    eexists. split; [reflexivity |]. simpl.
    assert (Hl2 : len (<[Z.to_nat (- (n + 1) + len vs) := b]>
                         (<[Z.to_nat (-1 + len vs) := a]> vs)) = len vs).
    { unfold len. rewrite !length_insert. reflexivity. }
    split; [exact Hl2 |].
    rewrite (Hget _ Hl2 (-1)), (Hget _ Hl2 (- (n + 1))) by lia.
    split; [| split].
    + rewrite list_lookup_insert_ne by (unfold len in *; lia).
      rewrite list_lookup_insert_eq by (unfold len in *; lia). congruence.
    + rewrite list_lookup_insert_eq
        by (rewrite length_insert; unfold len in *; lia).
      congruence.
    + intros i Hi Hne. rewrite (Hget _ Hl2 i), (Hget vs eq_refl i) by lia.
      rewrite !list_lookup_insert_ne by (unfold len in *; lia). reflexivity.
  - intros Hlen. unfold py_get at 1.
    rewrite py_position_too_deep by lia. reflexivity.
Qed.

(** SWAP16 succeeds on 17 items and raises [InsufficientStack] on 16. *)
Lemma stack_swap_spec_witness :
  let seventeen := Stack.mk (repeat [x01] 16 ++ [[x02]]) in
  let sixteen := Stack.mk (repeat [x01] 15 ++ [[x02]]) in
  (exists s', Stack.swap seventeen 16 = (s', Ok tt)
              /\ py_get (Stack.values s') (-1) = Some [x01]
              /\ py_get (Stack.values s') (-17) = Some [x02])
  /\ Stack.swap sixteen 16 = (sixteen, Raise (VMErr InsufficientStack)).
Proof.
  intros seventeen sixteen.
  destruct (stack_swap_spec seventeen 16 ltac:(lia)) as [Hok _].
  destruct (stack_swap_spec sixteen 16 ltac:(lia)) as [_ Hfail].
  destruct Hok as (s' & Hs' & _ & Htop & Hdeep & _);
    [vm_compute; reflexivity |].
  split; [| apply Hfail; vm_compute; discriminate].
  exists s'. split; [exact Hs' |]. split.
  - rewrite Htop. reflexivity.
  - change (-17) with (- (16 + 1)). rewrite Hdeep. reflexivity.
Defined.

(** [dup(n)], for [n >= 1], on a stack of at least [n] and fewer than 1024
    items pushes the item [n - 1] places below the top; on a stack of
    fewer than [n] items it raises [InsufficientStack], and on a full
    stack [FullStack]; in both cases the stack stays as it was. *)
Theorem stack_dup_spec (s : Stack.t) (n : Z) :
  1 <= n ->
  (n <= Stack.length s < 1024 ->
     (forall v, v ∈ Stack.values s -> len v <= 32) ->
     exists v, py_get (Stack.values s) (- n) = Some v
               /\ Stack.dup s n = (Stack.mk (Stack.values s ++ [v]), Ok tt))
  /\ (Stack.length s < n ->
      Stack.dup s n = (s, Raise (VMErr InsufficientStack)))
  /\ (n <= Stack.length s -> 1024 <= Stack.length s ->
      Stack.dup s n = (s, Raise (VMErr FullStack))).
Proof.
  intros Hn. destruct s as [vs]. unfold Stack.length, Stack.dup. simpl.
  replace (-1 * n) with (- n) by lia.
  assert (Hget : n <= len vs ->
            exists v, py_get vs (- n) = Some v /\ v ∈ vs).
  { intros Hlen. unfold py_get. rewrite py_position_from_end by lia.
    destruct (lookup_lt_is_Some_2 vs (Z.to_nat (- n + len vs))) as [v Hv];
      [unfold len in *; lia |].
    exists v. split; [exact Hv |]. apply list_elem_of_lookup. eauto. }
  split; [| split].
  - intros Hlen Hwords. destruct (Hget ltac:(lia)) as (v & Hv & Hin).
    exists v. split; [exact Hv |]. rewrite Hv.
    apply push_word; [unfold Stack.length; simpl; lia | apply Hwords, Hin].
  - intros Hlen. unfold py_get. rewrite py_position_too_deep by lia. reflexivity.
  - intros Hlen Hfull. destruct (Hget Hlen) as (v & Hv & _). rewrite Hv.
    apply push_full. unfold Stack.length. simpl. lia.
Qed.

Lemma stack_dup_spec_witness :
  let s := Stack.mk [[x01]; [x02]; [x03]] in
  Stack.dup s 2 = (Stack.mk [[x01]; [x02]; [x03]; [x02]], Ok tt)
  /\ Stack.dup s 4 = (s, Raise (VMErr InsufficientStack)).
Proof.
  intros s.
  destruct (stack_dup_spec s 2 ltac:(lia)) as (Hok & _ & _).
  destruct (stack_dup_spec s 4 ltac:(lia)) as (_ & Hfail & _).
  split; [| apply Hfail; vm_compute; reflexivity].
  destruct Hok as (v & Hv & Hdup).
  - vm_compute. split; [discriminate | reflexivity].
  - intros v Hin. apply list_elem_of_In in Hin. simpl in Hin.
    destruct Hin as [<- | [<- | [<- | []]]]; vm_compute; discriminate.
  - vm_compute in Hv. injection Hv as <-. exact Hdup.
Defined.

(** ** GasMeter *)

Lemma is_uint256_spec (v : Z) : is_uint256 v = true <-> 0 <= v <= UINT_256_MAX.
Proof. unfold is_uint256. rewrite andb_true_iff, !Z.leb_le. tauto. Qed.

Lemma sum_app (xs ys : list Z) : sum (xs ++ ys) = sum xs + sum ys.
Proof. unfold sum at 1. rewrite fold_left_app, sum_from. reflexivity. Qed.

(** C6.  [consume_gas(amount)] raises [OutOfGas] exactly when the meter is
    already out of gas at entry or [amount] is not a uint256, and it
    raises nothing else, [ValidationError] in particular; in every other
    case it returns, having appended [amount] to [deductions], and the gas
    that remains is the former amount less [amount], whatever its sign. *)
Theorem C6_consume_gas_raises_iff (g : GasMeter.t) (amount : Z) :
  (GasMeter.consume_gas g amount = Raise (VMErr OutOfGas)
   <-> GasMeter.gas_remaining g < 0 \/ ~ (0 <= amount <= UINT_256_MAX))
  /\ (forall e, GasMeter.consume_gas g amount = Raise e -> e = VMErr OutOfGas)
  /\ (~ (GasMeter.gas_remaining g < 0 \/ ~ (0 <= amount <= UINT_256_MAX)) ->
      let g' := GasMeter.mk (GasMeter.start_gas g)
                            (GasMeter.deductions g ++ [amount])
                            (GasMeter.returns g) (GasMeter.refunds g) in
      GasMeter.consume_gas g amount = Ok g'
      /\ GasMeter.gas_remaining g' = GasMeter.gas_remaining g - amount).
Proof.
  unfold GasMeter.consume_gas, validate_uint256, GasMeter.is_out_of_gas.
  pose proof (is_uint256_spec amount) as Hu.
  destruct (is_uint256 amount) eqn:Ev.
  - assert (Hr : 0 <= amount <= UINT_256_MAX) by (apply Hu; reflexivity).
    destruct (Z.ltb_spec (GasMeter.gas_remaining g) 0) as [Hneg | Hpos].
    + split; [split; [intros _; left; exact Hneg | reflexivity] |].
      split; [intros e He; congruence |].
      intros Hn. exfalso. apply Hn. left. exact Hneg.
    + split; [| split].
      * split; [discriminate |]. intros [Hneg | Hbad]; [lia | tauto].
      * intros e He. discriminate He.
      * intros _. split; [reflexivity |].
        unfold GasMeter.gas_remaining, GasMeter.gas_used. simpl.
        rewrite sum_snoc. lia.
  - assert (Hbad : ~ (0 <= amount <= UINT_256_MAX)).
    { intros Hr. apply Hu in Hr. discriminate. }
    split; [split; [intros _; right; exact Hbad | reflexivity] |].
    split; [intros e He; congruence |].
    intros Hn. exfalso. apply Hn. right. exact Hbad.
Qed.

(** With 2 gas left a deduction of 3 is accepted and leaves -1; the next
    call, of any amount, is the one that raises. *)
Lemma C6_consume_gas_raises_iff_witness :
  let g := GasMeter.mk 2 [] [] [] in
  let g' := GasMeter.mk 2 [3] [] [] in
  GasMeter.consume_gas g 3 = Ok g'
  /\ GasMeter.gas_remaining g' = -1
  /\ GasMeter.consume_gas g' 0 = Raise (VMErr OutOfGas)
  /\ GasMeter.consume_gas g (2 ^ 256) = Raise (VMErr OutOfGas).
Proof.
  intros g g'.
  destruct (C6_consume_gas_raises_iff g 3) as (_ & _ & Hok).
  destruct (C6_consume_gas_raises_iff g' 0) as [[_ Hraise] _].
  destruct (C6_consume_gas_raises_iff g (2 ^ 256)) as [[_ Hwide] _].
  split; [| split; [| split]].
  - apply Hok. vm_compute. intros [H | H]; [discriminate H |].
    apply H. split; discriminate.
  - vm_compute. reflexivity.
  - apply Hraise. left. vm_compute. reflexivity.
  - apply Hwide. right. vm_compute. intros [_ H]. apply H. reflexivity.
Defined.

Lemma gas_step_ledgers (g : GasMeter.t) (tr : gas_trace) (c : gas_call) :
  let g1 := traced_meter tr in
  let g2 := traced_meter (gas_step tr c) in
  GasMeter.start_gas g1 = GasMeter.start_gas g
  /\ GasMeter.deductions g1 = GasMeter.deductions g ++ consumed tr
  /\ GasMeter.returns g1 = GasMeter.returns g ++ returned tr
  /\ GasMeter.refunds g1 = GasMeter.refunds g ++ refunded tr ->
  GasMeter.start_gas g2 = GasMeter.start_gas g
  /\ GasMeter.deductions g2 = GasMeter.deductions g ++ consumed (gas_step tr c)
  /\ GasMeter.returns g2 = GasMeter.returns g ++ returned (gas_step tr c)
  /\ GasMeter.refunds g2 = GasMeter.refunds g ++ refunded (gas_step tr c).
Proof.
  intros g1 g2 (Hs & Hd & Hr & Hf). subst g1 g2.
  destruct c as [amount | amount | amount]; simpl;
    unfold GasMeter.consume_gas, GasMeter.return_gas, GasMeter.refund_gas,
           validate_uint256, bind;
    destruct (is_uint256 amount); simpl; try tauto;
    try (destruct (GasMeter.is_out_of_gas (traced_meter tr)); simpl; try tauto);
    rewrite ?Hd, ?Hr, ?Hf, <- ?app_assoc; tauto.
Qed.

Lemma gas_calls_ledgers (g : GasMeter.t) (calls : list gas_call) (tr : gas_trace) :
  let g1 := traced_meter tr in
  let g2 := traced_meter (fold_left gas_step calls tr) in
  GasMeter.start_gas g1 = GasMeter.start_gas g
  /\ GasMeter.deductions g1 = GasMeter.deductions g ++ consumed tr
  /\ GasMeter.returns g1 = GasMeter.returns g ++ returned tr
  /\ GasMeter.refunds g1 = GasMeter.refunds g ++ refunded tr ->
  GasMeter.start_gas g2 = GasMeter.start_gas g
  /\ GasMeter.deductions g2
     = GasMeter.deductions g ++ consumed (fold_left gas_step calls tr)
  /\ GasMeter.returns g2
     = GasMeter.returns g ++ returned (fold_left gas_step calls tr)
  /\ GasMeter.refunds g2
     = GasMeter.refunds g ++ refunded (fold_left gas_step calls tr).
Proof.
  revert tr. induction calls as [| c calls IH]; intros tr; simpl.
  - tauto.
  - intros H. apply IH. apply (gas_step_ledgers g tr c). exact H.
Qed.

(** C7.  After any sequence of [consume_gas], [return_gas] and
    [refund_gas] calls on a meter, [deductions], [returns] and [refunds]
    hold what they held before followed by the amounts of the calls that
    returned normally; [gas_used] is the sum of the deductions plus the
    sum of the returns (so every returned amount adds to it),
    [gas_remaining] is [start_gas - gas_used], [gas_refunded] is the sum
    of the refunds, and [is_out_of_gas] holds exactly when [gas_remaining]
    is negative. *)
Theorem C7_gas_accounting (g : GasMeter.t) (calls : list gas_call) :
  let tr := run_gas_calls g calls in
  let g' := traced_meter tr in
  GasMeter.gas_used g' = sum (GasMeter.deductions g') + sum (GasMeter.returns g')
  /\ GasMeter.gas_used g' = GasMeter.gas_used g + sum (consumed tr) + sum (returned tr)
  /\ GasMeter.gas_remaining g' = GasMeter.start_gas g - GasMeter.gas_used g'
  /\ GasMeter.gas_refunded g' = GasMeter.gas_refunded g + sum (refunded tr)
  /\ (GasMeter.is_out_of_gas g' = true <-> GasMeter.gas_remaining g' < 0)
  /\ (forall amount, 0 <= amount <= UINT_256_MAX ->
        exists g'', GasMeter.return_gas g' amount = Ok g''
                    /\ GasMeter.gas_used g'' = GasMeter.gas_used g' + amount).
Proof.
  intros tr g'.
  destruct (gas_calls_ledgers g calls (mkGasTrace g [] [] [])) as (Hs & Hd & Hr & Hf).
  { simpl. rewrite !app_nil_r. tauto. }
  fold (run_gas_calls g calls) in Hs, Hd, Hr, Hf. fold tr in Hs, Hd, Hr, Hf.
  fold g' in Hs, Hd, Hr, Hf.
  split. { reflexivity. }
  split. { unfold GasMeter.gas_used. rewrite Hd, Hr, !sum_app. lia. }
  split. { unfold GasMeter.gas_remaining. rewrite Hs. reflexivity. }
  split. { unfold GasMeter.gas_refunded. rewrite Hf, sum_app. reflexivity. }
  split. { unfold GasMeter.is_out_of_gas. apply Z.ltb_lt. }
  intros amount Ha. unfold GasMeter.return_gas, validate_uint256.
  apply is_uint256_spec in Ha. rewrite Ha. simpl. eexists. split; [reflexivity |].
  unfold GasMeter.gas_used. simpl. rewrite sum_snoc. lia.
Qed.

Lemma C7_gas_accounting_witness :
  let tr := run_gas_calls (GasMeter.mk 10 [] [] [])
                          [Consume 4; Return 3; Refund 5; Consume 9; Consume 1] in
  GasMeter.gas_used (traced_meter tr) = 16
  /\ GasMeter.gas_remaining (traced_meter tr) = -6
  /\ GasMeter.gas_refunded (traced_meter tr) = 5
  /\ GasMeter.is_out_of_gas (traced_meter tr) = true.
Proof.
  intros tr.
  destruct (C7_gas_accounting (GasMeter.mk 10 [] [] [])
              [Consume 4; Return 3; Refund 5; Consume 9; Consume 1])
    as (_ & Hused & Hrem & Hrefund & Hout & _).
  fold tr in Hused, Hrem, Hrefund, Hout.
  assert (Hu : GasMeter.gas_used (traced_meter tr) = 16) by (rewrite Hused; reflexivity).
  split; [exact Hu |]. split; [rewrite Hrem, Hu; reflexivity |].
  split; [rewrite Hrefund; reflexivity |].
  apply Hout. rewrite Hrem, Hu. reflexivity.
Defined.

(** ** CodeStream *)

Lemma set_pc_in_range (cs : CodeStream.t) (v : Z) :
  0 <= v ->
  CodeStream.set_pc cs v
  = Ok (CodeStream.mk (BytesIO.mk (code_of cs) (Z.min v (CodeStream.length cs)))).
Proof.
  intros Hv. unfold CodeStream.set_pc, BytesIO.seek, bind.
  pose proof (len_nonneg (code_of cs)) as Hl.
  unfold CodeStream.length, code_of in *.
  destruct (Z.ltb_spec (Z.min v (len (BytesIO.getvalue (CodeStream.stream cs)))) 0);
    [lia | reflexivity].
Qed.

Lemma set_pc_negative (cs : CodeStream.t) (v : Z) :
  v < 0 -> CodeStream.set_pc cs v = Raise ValueError.
Proof.
  intros Hv. unfold CodeStream.set_pc, BytesIO.seek, bind.
  pose proof (len_nonneg (BytesIO.getvalue (CodeStream.stream cs))) as Hl.
  unfold CodeStream.length.
  destruct (Z.ltb_spec (Z.min v (len (BytesIO.getvalue (CodeStream.stream cs)))) 0);
    [reflexivity | lia].
Qed.

Lemma next_at_end (cs : CodeStream.t) :
  CodeStream.pc cs = CodeStream.length cs ->
  CodeStream.next cs = (opcodes.STOP, cs).
Proof.
  destruct cs as [[b p]]. unfold CodeStream.pc, CodeStream.length. simpl.
  intros ->. unfold CodeStream.next, CodeStream.read, BytesIO.read. simpl.
  pose proof (len_nonneg b) as Hl.
  replace (Z.max 0 (len b - len b)) with 0 by lia. simpl.
  rewrite Z.add_0_r. reflexivity.
Qed.




Lemma seek_read_prefix (cs : CodeStream.t) (position : Z) :
  pc_in_code cs -> 0 <= position <= CodeStream.length cs ->
  CodeStream.seek cs (Z.max 0 (position - 32))
                  (fun s => CodeStream.read s (Z.min position 32))
  = Ok (prefix_before cs position, cs).
Proof.
  unfold pc_in_code. intros Hpc Hp. unfold CodeStream.seek.
  rewrite set_pc_in_range by lia. unfold bind.
  destruct cs as [[b p]].
  unfold CodeStream.pc, CodeStream.length, code_of, prefix_before in *.
  simpl in *. unfold CodeStream.read, BytesIO.read. simpl.
  rewrite (Z.min_l (Z.max 0 (position - 32)) (len b)) by lia.
  assert (Hsize : ((Z.min position 32 <? 0)
                   || (Z.max 0 (len b - Z.max 0 (position - 32)) <? Z.min position 32))
                  = false).
  { apply orb_false_iff. split; apply Z.ltb_ge; lia. }
  rewrite Hsize. rewrite set_pc_in_range by lia. simpl.
  unfold CodeStream.length, code_of. simpl. rewrite (Z.min_l p (len b)) by lia.
  reflexivity.
Qed.

Lemma prefix_before_length (cs : CodeStream.t) (position : Z) :
  0 <= position <= CodeStream.length cs ->
  length (prefix_before cs position) = Z.to_nat (Z.min position 32).
Proof.
  intros Hp. unfold prefix_before, CodeStream.length, code_of, len in *.
  rewrite length_take, length_drop. lia.
Qed.

Lemma prefix_before_lookup (cs : CodeStream.t) (position : Z) (j : nat) :
  0 <= position <= CodeStream.length cs ->
  (j < Z.to_nat (Z.min position 32))%nat ->
  reverse (prefix_before cs position) !! j
  = code_of cs !! Z.to_nat (position - 1 - Z.of_nat j).
Proof.
  intros Hp Hj.
  rewrite reverse_lookup by (rewrite prefix_before_length; lia).
  rewrite prefix_before_length by lia. unfold prefix_before.
  rewrite lookup_take_lt by lia. rewrite lookup_drop. f_equal. lia.
Qed.

Lemma scan_eq (rec : CodeStream.t -> Z -> option (result (bool * CodeStream.t)))
    (valid : Z -> bool) (cs : CodeStream.t) (position : Z) (l : list byte) :
  forall offset,
    (forall q, position - 1 - offset - len l < q <= position - 1 - offset ->
               rec cs q = Some (Ok (valid q, cs))) ->
    CodeStream.scan rec cs position offset l
    = Some (Ok (scan_answer valid position offset l, cs)).
Proof.
  induction l as [| b rest IH]; intros offset Hrec; simpl.
  - reflexivity.
  - assert (Hlen : len (b :: rest) = len rest + 1) by (unfold len; simpl; lia).
    rewrite Hlen in Hrec. pose proof (len_nonneg rest) as Hnn.
    assert (Hrest : CodeStream.scan rec cs position (offset + 1) rest
                    = Some (Ok (scan_answer valid position (offset + 1) rest, cs))).
    { apply IH. intros q Hq. apply Hrec. lia. }
    destruct ((ord b <? opcodes.PUSH1) || (ord b >? opcodes.PUSH32)); [exact Hrest |].
    destruct (1 + ord b - opcodes.PUSH1 <=? offset); [exact Hrest |].
    rewrite Hrec by lia.
    destruct (valid (position - 1 - offset)); simpl; [reflexivity | exact Hrest].
Qed.

Lemma scan_answer_false (valid : Z -> bool) (position : Z) (l : list byte) :
  forall offset,
    scan_answer valid position offset l = false
    <-> exists (j : nat) (b : byte),
          l !! j = Some b
          /\ opcodes.PUSH1 <= ord b <= opcodes.PUSH32
          /\ offset + Z.of_nat j < 1 + ord b - opcodes.PUSH1
          /\ valid (position - 1 - (offset + Z.of_nat j)) = true.
Proof.
  induction l as [| b rest IH]; intros offset; simpl.
  - split; [discriminate | intros (j & b & H & _); discriminate H].
  - assert (Hshift : scan_answer valid position (offset + 1) rest = false
                     -> exists (j : nat) (b0 : byte),
                          (b :: rest) !! j = Some b0
                          /\ opcodes.PUSH1 <= ord b0 <= opcodes.PUSH32
                          /\ offset + Z.of_nat j < 1 + ord b0 - opcodes.PUSH1
                          /\ valid (position - 1 - (offset + Z.of_nat j)) = true).
    { intros H. apply IH in H as (j & b0 & Hj & Hop & Hsz & Hv).
      exists (S j), b0. split; [exact Hj |]. split; [exact Hop |].
      replace (offset + Z.of_nat (S j)) with (offset + 1 + Z.of_nat j) by lia.
      split; assumption. }
    assert (Hback : forall (j : nat) (b0 : byte),
               rest !! j = Some b0 ->
               opcodes.PUSH1 <= ord b0 <= opcodes.PUSH32 ->
               offset + Z.of_nat (S j) < 1 + ord b0 - opcodes.PUSH1 ->
               valid (position - 1 - (offset + Z.of_nat (S j))) = true ->
               scan_answer valid position (offset + 1) rest = false).
    { intros j b0 Hj Hop Hsz Hv. apply IH. exists j, b0.
      replace (offset + 1 + Z.of_nat j) with (offset + Z.of_nat (S j)) by lia.
      repeat split; try assumption; lia. }
    destruct ((ord b <? opcodes.PUSH1) || (ord b >? opcodes.PUSH32)) eqn:Eop.
    { split; [exact Hshift |]. intros ([| j] & b0 & Hj & Hop & Hsz & Hv).
      - simpl in Hj. injection Hj as <-.
        apply orb_true_iff in Eop as [E | E]; [apply Z.ltb_lt in E | apply Z.gtb_lt in E]; lia.
      - eapply Hback; eassumption. }
    apply orb_false_iff in Eop as [E1 E2].
    apply Z.ltb_ge in E1. rewrite Z.gtb_ltb in E2. apply Z.ltb_ge in E2.
    destruct (Z.leb_spec (1 + ord b - opcodes.PUSH1) offset) as [Esz | Esz].
    { split; [exact Hshift |]. intros ([| j] & b0 & Hj & Hop & Hsz & Hv).
      - simpl in Hj. injection Hj as <-. simpl in Hsz. lia.
      - eapply Hback; eassumption. }
    destruct (valid (position - 1 - offset)) eqn:Ev; simpl.
    + split; [| reflexivity]. intros _. exists 0%nat, b. simpl.
      rewrite Z.add_0_r. repeat split; try assumption; lia.
    + split; [exact Hshift |]. intros ([| j] & b0 & Hj & Hop & Hsz & Hv).
      * simpl in Hv. rewrite Z.add_0_r in Hv. congruence.
      * eapply Hback; eassumption.
Qed.

(** One call of [is_valid_opcode], when the calls it makes answer with
    [valid_at]. *)
Lemma is_valid_opcode_fuel_step (cs : CodeStream.t) (position : Z) (fuel : nat) :
  pc_in_code cs -> 0 <= position <= CodeStream.length cs ->
  (forall q, 0 <= q < position ->
             CodeStream.is_valid_opcode_fuel fuel cs q = Some (Ok (valid_at cs q, cs))) ->
  CodeStream.is_valid_opcode_fuel (S fuel) cs position
  = Some (Ok (scan_answer (valid_at cs) position 0
                          (reverse (prefix_before cs position)), cs)).
Proof.
  intros Hpc Hp Hrec. simpl. rewrite seek_read_prefix by assumption.
  apply scan_eq. intros q Hq. apply Hrec.
  unfold len in Hq. rewrite length_reverse, prefix_before_length in Hq by lia. lia.
Qed.

(** Any fuel above [position] gives the answer of [is_valid_opcode], and
    the stream is left as it was. *)
Lemma is_valid_opcode_fuel_enough (cs : CodeStream.t) :
  pc_in_code cs ->
  forall (n : nat) (position : Z) (fuel : nat),
    Z.to_nat position = n -> 0 <= position <= CodeStream.length cs ->
    (n < fuel)%nat ->
    CodeStream.is_valid_opcode_fuel fuel cs position
    = Some (Ok (valid_at cs position, cs)).
Proof.
  intros Hpc n. induction n as [n IH] using lt_wf_ind.
  intros position fuel Hn Hp Hfuel.
  assert (Hstep : forall f, (n <= f)%nat ->
            CodeStream.is_valid_opcode_fuel (S f) cs position
            = Some (Ok (scan_answer (valid_at cs) position 0
                                    (reverse (prefix_before cs position)), cs))).
  { intros f Hf. apply is_valid_opcode_fuel_step; try assumption.
    intros q Hq. apply (IH (Z.to_nat q)); [lia | reflexivity | lia | lia]. }
  assert (Hat : valid_at cs position
                = scan_answer (valid_at cs) position 0
                              (reverse (prefix_before cs position))).
  { unfold valid_at at 1, CodeStream.is_valid_opcode. rewrite Hn.
    rewrite Hstep by lia. reflexivity. }
  destruct fuel as [| f]; [lia |]. rewrite Hstep by lia. rewrite Hat. reflexivity.
Qed.

Lemma is_valid_opcode_total (cs : CodeStream.t) (position : Z) :
  pc_in_code cs -> 0 <= position <= CodeStream.length cs ->
  CodeStream.is_valid_opcode cs position = Some (Ok (valid_at cs position, cs)).
Proof.
  intros Hpc Hp. unfold CodeStream.is_valid_opcode.
  apply (is_valid_opcode_fuel_enough cs Hpc (Z.to_nat position)); [reflexivity | lia | lia].
Qed.

Lemma valid_at_unfold (cs : CodeStream.t) (position : Z) :
  pc_in_code cs -> 0 <= position <= CodeStream.length cs ->
  valid_at cs position
  = scan_answer (valid_at cs) position 0 (reverse (prefix_before cs position)).
Proof.
  intros Hpc Hp.
  pose proof (is_valid_opcode_total cs position Hpc Hp) as Htot.
  unfold CodeStream.is_valid_opcode in Htot.
  rewrite is_valid_opcode_fuel_step in Htot; try assumption.
  - injection Htot as Htot. symmetry. exact Htot.
  - intros q Hq.
    apply (is_valid_opcode_fuel_enough cs Hpc (Z.to_nat q)); [reflexivity | lia | lia].
Qed.

Lemma in_immediate_window (cs : CodeStream.t) (position q : Z) :
  in_immediate_of cs position q -> position - 32 <= q.
Proof.
  intros (b & Hq & _ & Hop & Hsz). unfold opcodes.PUSH1, opcodes.PUSH32 in *. lia.
Qed.

(** The answer is [False] exactly for the bytes of the immediate operand
    of a PUSH whose own answer is [True]. *)
Lemma valid_at_false_iff (cs : CodeStream.t) (position : Z) :
  pc_in_code cs -> 0 <= position <= CodeStream.length cs ->
  valid_at cs position = false
  <-> exists q, in_immediate_of cs position q /\ valid_at cs q = true.
Proof.
  intros Hpc Hp.
  rewrite valid_at_unfold by assumption. rewrite scan_answer_false. split.
  - intros (j & b & Hj & Hop & Hsz & Hv).
    assert (Hjlt : (j < Z.to_nat (Z.min position 32))%nat).
    { apply lookup_lt_Some in Hj.
      rewrite length_reverse, prefix_before_length in Hj by lia. exact Hj. }
    rewrite prefix_before_lookup in Hj by (lia || assumption).
    exists (position - 1 - Z.of_nat j). split.
    + exists b. repeat split; try (assumption || lia).
    + rewrite Z.add_0_l in Hv. exact Hv.
  - intros (q & Himm & Hvalid). pose proof (in_immediate_window cs position q Himm) as Hw.
    destruct Himm as (b & Hq & Hb & Hop & Hsz).
    exists (Z.to_nat (position - 1 - q)), b.
    rewrite prefix_before_lookup by (lia || assumption).
    replace (position - 1 - Z.of_nat (Z.to_nat (position - 1 - q))) with q by lia.
    split; [exact Hb |]. split; [exact Hop |]. split; [lia |].
    replace (position - 1 - (0 + Z.of_nat (Z.to_nat (position - 1 - q)))) with q by lia.
    exact Hvalid.
Qed.



(** The cursor stays within the code under the operations of
    [CodeStream]. *)
Lemma pc_in_code_init (code_bytes : bytes) : pc_in_code (CodeStream.init code_bytes).
Proof.
  unfold pc_in_code, CodeStream.pc, CodeStream.length. simpl.
  pose proof (len_nonneg code_bytes). lia.
Qed.

Lemma pc_in_code_set_pc (cs cs' : CodeStream.t) (v : Z) :
  CodeStream.set_pc cs v = Ok cs' -> pc_in_code cs'.
Proof.
  intros H. destruct (Z.lt_ge_cases v 0) as [Hneg | Hpos].
  - rewrite set_pc_negative in H by exact Hneg. discriminate H.
  - rewrite set_pc_in_range in H by exact Hpos. injection H as <-.
    unfold pc_in_code, CodeStream.pc, CodeStream.length, code_of. simpl.
    pose proof (len_nonneg (BytesIO.getvalue (CodeStream.stream cs))). lia.
Qed.

Lemma pc_in_code_read (cs : CodeStream.t) (size : Z) :
  pc_in_code cs -> pc_in_code (snd (CodeStream.read cs size)).
Proof.
  destruct cs as [[b p]].
  unfold pc_in_code, CodeStream.pc, CodeStream.length, CodeStream.read, BytesIO.read.
  simpl. intros H.
  destruct ((size <? 0) || (Z.max 0 (len b - p) <? size)) eqn:E; simpl; [lia |].
  apply orb_false_iff in E as [E1 E2]. apply Z.ltb_ge in E1, E2. lia.
Qed.

Lemma pc_in_code_next (cs : CodeStream.t) :
  pc_in_code cs -> pc_in_code (snd (CodeStream.next cs)).
Proof.
  intros H. apply (pc_in_code_read cs 1) in H. unfold CodeStream.next.
  destruct (CodeStream.read cs 1) as [value cs']. exact H.
Qed.

(** *** [is_valid_opcode] and the linear disassembly *)

Lemma length_sweep (code : list byte) : forall skip, length (sweep skip code) = length code.
Proof.
  induction code as [| b rest IH]; intros skip; simpl; [reflexivity |].
  destruct skip; simpl; rewrite IH; reflexivity.
Qed.

(** A byte is no instruction start exactly when it is one of the bytes
    still to pass, or one of the immediate bytes of an instruction that
    starts before it. *)
Lemma sweep_false_iff (code : list byte) :
  forall (skip i : nat),
    sweep skip code !! i = Some false
    <-> (i < length code)%nat
        /\ ((i < skip)%nat
            \/ exists (q : nat) (b : byte),
                 (q < i)%nat /\ sweep skip code !! q = Some true
                 /\ code !! q = Some b /\ (i <= q + immediate_size b)%nat).
Proof.
  induction code as [| b rest IH]; intros skip i.
  - simpl. split; [discriminate |]. intros [H _]. simpl in H. lia.
  - destruct skip as [| skip']; destruct i as [| i']; simpl.
    + split; [discriminate |]. intros [_ [H | (q & b0 & H & _)]]; lia.
    + rewrite IH. split.
      * intros [Hlen [Hskip | (q & b0 & Hq & Hs & Hb & Hi)]].
        -- split; [lia |]. right. exists 0%nat, b. simpl.
           repeat split; lia.
        -- split; [lia |]. right. exists (S q), b0. simpl.
           repeat split; try assumption; lia.
      * intros [Hlen [Hskip | (q & b0 & Hq & Hs & Hb & Hi)]]; [lia |].
        split; [lia |]. destruct q as [| q']; simpl in *.
        -- injection Hb as <-. left. lia.
        -- right. exists q', b0. repeat split; try assumption; lia.
    + split; [| reflexivity]. intros _. split; lia.
    + rewrite IH. split.
      * intros [Hlen [Hskip | (q & b0 & Hq & Hs & Hb & Hi)]].
        -- split; [lia |]. left. lia.
        -- split; [lia |]. right. exists (S q), b0. simpl.
           repeat split; try assumption; lia.
      * intros [Hlen [Hskip | (q & b0 & Hq & Hs & Hb & Hi)]].
        -- split; [lia |]. left. lia.
        -- split; [lia |]. destruct q as [| q']; simpl in *; [discriminate Hs |].
           right. exists q', b0. repeat split; try assumption; lia.
Qed.

Lemma immediate_size_covers (cs : CodeStream.t) (position q : Z) :
  in_immediate_of cs position q
  <-> 0 <= q < position
      /\ exists b, code_of cs !! Z.to_nat q = Some b
                   /\ position <= q + Z.of_nat (immediate_size b).
Proof.
  unfold in_immediate_of, immediate_size. split.
  - intros (b & Hq & Hb & Hop & Hsz). split; [exact Hq |]. exists b.
    split; [exact Hb |].
    destruct (Z.leb_spec opcodes.PUSH1 (ord b)); [| lia].
    destruct (Z.leb_spec (ord b) opcodes.PUSH32); [| lia]. simpl. lia.
  - intros (Hq & b & Hb & Hsz). exists b.
    destruct (Z.leb_spec opcodes.PUSH1 (ord b));
      destruct (Z.leb_spec (ord b) opcodes.PUSH32); simpl in Hsz; try lia.
    repeat split; try assumption; lia.
Qed.



(** ** The gas wrapper *)

(** A wrapped opcode function charges before it runs: either
    [consume_gas] raises [OutOfGas] and the frame is as it was; or the
    cost is deducted and leaves the meter out of gas, and the call raises
    [OutOfGas] without running the opcode; or the opcode runs on the
    frame whose gas has dropped by exactly the cost and is not
    negative. *)
Theorem wrap_opcode_fn_charges_first (opcode gas_cost : Z) (fn : opcode_fn)
    (evm : EVM) (environment : ExecutionEnvironment) :
  let g := State.gas_meter (state environment) in
  let wrapped := wrap_opcode_fn opcode fn gas_cost (evm, environment) in
  (GasMeter.consume_gas g gas_cost = Raise (VMErr OutOfGas)
   /\ wrapped = Some ((evm, environment), Raise (VMErr OutOfGas)))
  \/ (exists g', GasMeter.consume_gas g gas_cost = Ok g'
        /\ GasMeter.gas_remaining g' = GasMeter.gas_remaining g - gas_cost
        /\ ((GasMeter.gas_remaining g' < 0
             /\ wrapped = Some ((evm, set_gas_meter environment g'),
                                Raise (VMErr OutOfGas)))
            \/ (0 <= GasMeter.gas_remaining g'
                /\ wrapped = fn (evm, set_gas_meter environment g')))).
Proof.
  intros g wrapped. subst wrapped. unfold wrap_opcode_fn. fold g.
  unfold GasMeter.consume_gas, validate_uint256.
  destruct (is_uint256 gas_cost); [| left; split; reflexivity].
  destruct (GasMeter.is_out_of_gas g) eqn:Eout; [left; split; reflexivity |].
  set (g' := GasMeter.mk (GasMeter.start_gas g) (GasMeter.deductions g ++ [gas_cost])
                         (GasMeter.returns g) (GasMeter.refunds g)).
  right. exists g'. split; [reflexivity |].
  assert (Hrem : GasMeter.gas_remaining g' = GasMeter.gas_remaining g - gas_cost).
  { unfold GasMeter.gas_remaining, GasMeter.gas_used. simpl. rewrite sum_snoc. lia. }
  split; [exact Hrem |].
  destruct (GasMeter.is_out_of_gas g') eqn:Eout'; unfold GasMeter.is_out_of_gas in Eout'.
  - left. apply Z.ltb_lt in Eout'. split; [exact Eout' | reflexivity].
  - right. apply Z.ltb_ge in Eout'. split; [exact Eout' | reflexivity].
Qed.

(** ** The interpreter *)

Section InterpreterProperties.

Variable validate_opcode : Z -> result unit.
Variable OPCODE_GAS_COSTS : Z -> Z.
Variable OPCODE_LOGIC_FUNCTIONS : host_apply -> Z -> opcode_fn.

#[local] Abbreviation the_apply_message :=
  (apply_message validate_opcode OPCODE_GAS_COSTS OPCODE_LOGIC_FUNCTIONS).
#[local] Abbreviation the_execute_vm :=
  (execute_vm validate_opcode OPCODE_GAS_COSTS OPCODE_LOGIC_FUNCTIONS).
#[local] Abbreviation the_run_opcodes :=
  (run_opcodes validate_opcode OPCODE_GAS_COSTS OPCODE_LOGIC_FUNCTIONS).

(** When a [VMError] reaches the scope guard, it stores the error and
    touches nothing of the host. *)
Lemma exit_with_VMError (evm : EVM) (self : ExecutionEnvironment) (e : VMError) :
  __exit__ evm self (Some (VMErr e)) = (evm, set_error self (Some e), true).
Proof. reflexivity. Qed.

(** The scope guard sees no exception whenever the loop was left by
    [break], which is also how it is left after an opcode raised a
    [VMError]: the deletions are then carried out, whatever
    [environment.error] holds. *)
Lemma execute_vm_after_break (apply : host_apply) (fuel : nat)
    (evm evm1 : EVM) (environment env1 : ExecutionEnvironment) :
  the_run_opcodes apply fuel (evm, environment) = Some ((evm1, env1), Ok tt) ->
  the_execute_vm apply fuel evm environment
  = Some (set_storage evm1 (fold_left delete_account (accounts_to_delete env1)
                                      (storage evm1)),
          Ok env1).
Proof.
  intros H. unfold execute_vm. rewrite H. reflexivity.
Qed.

(** C2.  When [apply_message(evm, message)] returns a frame whose
    [error] is set, the storage of the host is the storage it had when
    the call was made. *)
Theorem C2_failed_frame_reverts_storage (fuel : nat) (evm evm' : EVM)
    (message : Message.t) (frame : ExecutionEnvironment) :
  the_apply_message fuel evm message = Some (evm', Ok frame) ->
  error frame <> None ->
  storage evm' = storage evm.
Proof.
  intros H Herr.
  destruct fuel as [| fuel']; simpl in H;
    (destruct (Message.depth message >=? 1024); [discriminate H |]);
    match type of H with
    | context [let (_, _) := ?t in _] => destruct t as [evm1 [[] | e]]
    end; try discriminate H;
    (destruct (setup_environment evm1 message) as [environment | e];
     [| discriminate H]).
  - discriminate H.
  - destruct (execute_vm _ _ _ _ _ _ _) as [[evm2 [result_environment | e]] |];
      try discriminate H.
    destruct (error result_environment) eqn:E; injection H as <- <-.
    + reflexivity.
    + congruence.
Qed.

(** The calls that [apply_message] refuses before it builds a frame
    leave the host as it was. *)
Lemma apply_message_depth_limit (fuel : nat) (evm : EVM) (message : Message.t) :
  1024 <= Message.depth message ->
  the_apply_message fuel evm message = Some (evm, Raise (VMErr StackDepthLimit)).
Proof.
  intros H. apply Z.geb_le in H. destruct fuel; simpl; rewrite H; reflexivity.
Qed.

Lemma apply_message_insufficient_funds (fuel : nat) (evm : EVM) (message : Message.t) :
  Message.depth message < 1024 ->
  Message.value message <> 0 ->
  Storage.get_balance (storage evm) (Message.sender message) < Message.value message ->
  the_apply_message fuel evm message
  = Some (evm, Raise (NameError "InsufficientFunds")).
Proof.
  intros Hd Hv Hb.
  assert (E1 : (Message.depth message >=? 1024) = false).
  { rewrite Z.geb_leb. apply Z.leb_gt. lia. }
  apply Z.eqb_neq in Hv. apply Z.ltb_lt in Hb.
  destruct fuel; simpl; rewrite E1, Hv, Hb; reflexivity.
Qed.

(** The storage on which the frame is built when a value is sent from
    an account that holds it to another account. *)
Lemma apply_message_transfers_value (fuel : nat) (evm : EVM) (message : Message.t) :
  Message.depth message < 1024 ->
  Message.value message <> 0 ->
  Message.value message
    <= Storage.get_balance (storage evm) (Message.sender message) ->
  exists evm1,
    (Message.sender message <> Message.account message ->
       Storage.get_balance (storage evm1) (Message.sender message)
       = Storage.get_balance (storage evm) (Message.sender message)
         - Message.value message
       /\ Storage.get_balance (storage evm1) (Message.account message)
          = Storage.get_balance (storage evm) (Message.account message)
            + Message.value message)
    /\ (Message.sender message = Message.account message ->
          Storage.get_balance (storage evm1) (Message.account message)
          = Storage.get_balance (storage evm) (Message.account message)
            + Message.value message)
    /\ (forall a, a <> Message.sender message -> a <> Message.account message ->
          Storage.get_balance (storage evm1) a = Storage.get_balance (storage evm) a)
    /\ the_apply_message (S fuel) evm message
       = match setup_environment evm1 message with
         | Raise e => Some (evm1, Raise e)
         | Ok environment =>
           match the_execute_vm (the_apply_message fuel) fuel evm1 environment with
           | None => None
           | Some (evm2, Raise e) => Some (evm2, Raise e)
           | Some (evm2, Ok result_environment) =>
             match error result_environment with
             | Some _ => Some (EVM_revert evm2 (EVM_snapshot evm), Ok result_environment)
             | None => Some (evm2, Ok result_environment)
             end
           end
         end.
Proof.
  intros Hd Hv Hb.
  assert (E1 : (Message.depth message >=? 1024) = false).
  { rewrite Z.geb_leb. apply Z.leb_gt. lia. }
  apply Z.eqb_neq in Hv. apply Z.ltb_ge in Hb.
  eexists. split; [| split; [| split]]; cycle 3.
  - simpl. rewrite E1, Hv, Hb. reflexivity.
  - intros Hne. unfold Storage.get_balance. simpl.
    rewrite lookup_insert_eq.
    rewrite lookup_insert_ne by congruence. rewrite lookup_insert_eq. simpl.
    split; reflexivity.
  - intros Heq. unfold Storage.get_balance. simpl.
    rewrite lookup_insert_eq. reflexivity.
  - intros a Hs Ha. unfold Storage.get_balance. simpl.
    rewrite !lookup_insert_ne by congruence. reflexivity.
Qed.

(** C3, as the code has it.  A message of depth 1024 or more is refused
    with [StackDepthLimit] before a frame is built, so before any opcode
    runs (no fuel is needed, and the opcode tables are not consulted),
    and the host stays as it was.  Applied from a parent frame through
    [ExecutionEnvironment.apply_message], the exception passes through
    that method: the parent frame is left as it was, and no entry is
    appended to its [sub_environments]. *)
Theorem C3_depth_limit_raises (fuel : nat) (evm : EVM) (message : Message.t)
    (parent : ExecutionEnvironment) :
  1024 <= Message.depth message ->
  the_apply_message fuel evm message = Some (evm, Raise (VMErr StackDepthLimit))
  /\ ExecutionEnvironment_apply_message (the_apply_message fuel) message (evm, parent)
     = Some ((evm, parent), Raise (VMErr StackDepthLimit)).
Proof.
  intros H. split.
  - apply apply_message_depth_limit, H.
  - unfold ExecutionEnvironment_apply_message.
    rewrite apply_message_depth_limit by exact H. reflexivity.
Qed.

(** A [VMError] that an opcode function raises, or lets pass, ends the
    loop and becomes the error of the frame. *)
Lemma run_opcodes_captures_VMError (apply : host_apply) (fuel : nat)
    (evm evm' : EVM) (environment environment' : ExecutionEnvironment)
    (fn : opcode_fn) (err : VMError) :
  let '(opcode, code') := CodeStream.next (State.code (state environment)) in
  get_opcode_fn validate_opcode OPCODE_GAS_COSTS OPCODE_LOGIC_FUNCTIONS apply opcode
  = Ok fn ->
  fn (evm, set_code environment code') = Some ((evm', environment'), Raise (VMErr err)) ->
  the_run_opcodes apply (S fuel) (evm, environment)
  = Some ((evm', set_error environment' (Some err)), Ok tt).
Proof.
  simpl.
  destruct (CodeStream.next (State.code (state environment))) as [opcode code'].
  intros Hfn Hrun. rewrite Hfn, Hrun. reflexivity.
Qed.

End InterpreterProperties.

(** ** Runs on the example host *)

(** A call that sends 5 from [bob] to [alice] with 2 gas: the value is
    moved, the first opcode runs out of gas, and the storage is back to
    what it was when the call returns. *)
Lemma C2_failed_frame_reverts_storage_witness :
  exists (evm' : EVM) (frame : ExecutionEnvironment),
    Example.apply_message 10 Example.world
      (Example.msg Example.bob Example.alice 5 2 0) = Some (evm', Ok frame)
    /\ error frame = Some OutOfGas
    /\ storage evm' = storage Example.world.
Proof.
  set (r := Example.apply_message 10 Example.world
              (Example.msg Example.bob Example.alice 5 2 0)).
  assert (Hr : r = Some (Example.host_after r, Ok (Example.frame_after r)))
    by (vm_compute; reflexivity).
  exists (Example.host_after r), (Example.frame_after r).
  split; [exact Hr |]. split; [vm_compute; reflexivity |].
  apply (C2_failed_frame_reverts_storage
           Example.validate_opcode Example.OPCODE_GAS_COSTS
           Example.OPCODE_LOGIC_FUNCTIONS 10 Example.world (Example.host_after r)
           (Example.msg Example.bob Example.alice 5 2 0) (Example.frame_after r)).
  - exact Hr.
  - vm_compute. discriminate.
Defined.

Lemma C3_depth_limit_raises_witness :
  Example.apply_message 0 Example.world Example.child
  = Some (Example.world, Raise (VMErr StackDepthLimit))
  /\ ExecutionEnvironment_apply_message (Example.apply_message 0) Example.child
       (Example.world, Example.parent)
     = Some ((Example.world, Example.parent), Raise (VMErr StackDepthLimit)).
Proof.
  apply (C3_depth_limit_raises
           Example.validate_opcode Example.OPCODE_GAS_COSTS
           Example.OPCODE_LOGIC_FUNCTIONS 0 Example.world Example.child
           Example.parent).
  simpl. lia.
Defined.

(** C3, the part of it that does not hold.  [Example.child] is the message
    that a frame at depth 1023 creates.  Applying it from that frame does
    not return: no sub-frame with a [StackDepthLimit] error is appended to
    [sub_environments].  With an opcode that lets the exception pass, the
    call at depth 1023 does not succeed either: its frame ends with the
    error [StackDepthLimit] and has no sub-frame. *)
Lemma C3_no_sub_environment_is_recorded :
  create_message Example.parent 100 Example.dave 0 [] = Ok Example.child
  /\ ~ (exists (fuel : nat) (evm' : EVM) (parent' sub : ExecutionEnvironment),
          ExecutionEnvironment_apply_message (Example.apply_message fuel)
            Example.child (Example.world, Example.parent)
          = Some ((evm', parent'), Ok sub)
          /\ sub_environments parent' = [sub]
          /\ error sub = Some StackDepthLimit)
  /\ match Example.apply_message 10 Example.world
            (Example.msg Example.bob Example.dave 0 100 1023) with
     | Some (_, Ok frame) =>
       error frame = Some StackDepthLimit /\ sub_environments frame = []
     | _ => False
     end.
Proof.
  split; [reflexivity |]. split.
  - intros (fuel & evm' & parent' & sub & H & _).
    unfold ExecutionEnvironment_apply_message, Example.apply_message in H.
    rewrite apply_message_depth_limit in H by (simpl; lia). discriminate H.
  - vm_compute. split; reflexivity.
Qed.

(** C4, on the code.  [carol] holds nothing and sends 1: the call ends
    with [NameError], which is not a [VMError], because [InsufficientFunds]
    is not bound in [vm.py].  [alice] holds 10 and sends 4 to herself: the
    lowered balance is overwritten with the raised one, computed from the
    balance read before, and she holds 14 once the call has returned
    without error. *)
Theorem C4_insufficient_funds_is_unbound :
  Example.apply_message 10 Example.world
    (Example.msg Example.carol Example.alice 1 100 0)
  = Some (Example.world, Raise (NameError "InsufficientFunds"))
  /\ is_VMError (NameError "InsufficientFunds") = false
  /\ Storage.get_balance (storage Example.world) Example.alice = 10
  /\ match Example.apply_message 10 Example.world
            (Example.msg Example.alice Example.alice 4 100 0) with
     | Some (evm', Ok frame) =>
       error frame = None
       /\ Storage.get_balance (storage evm') Example.alice = 14
     | _ => False
     end.
Proof.
  split; [| split; [reflexivity | split; [vm_compute; reflexivity |]]].
  - unfold Example.apply_message.
    apply apply_message_insufficient_funds; vm_compute; congruence.
  - vm_compute. split; reflexivity.
Qed.

(** C1, on the code.  The frame runs out of gas at its first opcode;
    [execute_vm] stores [OutOfGas] in [environment.error] and leaves the
    loop, the [with] block ends without an exception, and the scope guard
    carries out the registered deletion: the 10 of [alice] go to [bob],
    the code and the storage of [alice] are deleted. *)
Theorem C1_deletions_run_after_captured_error :
  Storage.get_balance (storage Example.world) Example.alice = 10
  /\ Storage.get_balance (storage Example.world) Example.bob = 5
  /\ Storage.codes (storage Example.world) !! Example.alice
     = Some [x60; x01; x60; x02; x01]
  /\ Storage.slots (storage Example.world) !! Example.alice = Some {[ 0 := 42 ]}
  /\ match Example.doomed_frame with
     | Ok environment =>
       accounts_to_delete environment = [(Example.alice, Example.bob)]
       /\ match Example.execute 10 (Example.apply_message 10) Example.world
                  environment with
          | Some (evm', Ok environment') =>
            error environment' = Some OutOfGas
            /\ Storage.get_balance (storage evm') Example.alice = 0
            /\ Storage.get_balance (storage evm') Example.bob = 15
            /\ Storage.codes (storage evm') !! Example.alice = None
            /\ Storage.slots (storage evm') !! Example.alice = None
          | _ => False
          end
     | Raise _ => False
     end.
Proof.
  vm_compute. repeat split.
Qed.

(** * Further properties *)

(** ** Reading the code *)

Lemma stream_at_pc (cs : CodeStream.t) :
  0 <= CodeStream.pc cs ->
  cs = stream_at (code_of cs) (Z.to_nat (CodeStream.pc cs)).
Proof.
  destruct cs as [[b p]]. unfold CodeStream.pc, stream_at, code_of. simpl.
  intros Hp. rewrite Z2Nat.id by exact Hp. reflexivity.
Qed.

Lemma read_at (code_bytes : bytes) (p : nat) (size : Z) :
  0 <= size ->
  CodeStream.read (stream_at code_bytes p) size
  = (take (Z.to_nat size) (drop p code_bytes),
     stream_at code_bytes (p + length (take (Z.to_nat size) (drop p code_bytes)))).
Proof.
  intros Hsize. unfold CodeStream.read, BytesIO.read, stream_at. simpl.
  rewrite Nat2Z.id. unfold len.
  set (n := Z.max 0 (Z.of_nat (length code_bytes) - Z.of_nat p)).
  destruct (Z.ltb_spec size 0) as [? | _]; [lia |]. simpl.
  destruct (Z.ltb_spec n size) as [Hlt | Hge].
  - assert (Hall : take (Z.to_nat n) (drop p code_bytes) = drop p code_bytes).
    { apply take_ge. rewrite length_drop. lia. }
    assert (Hall' : take (Z.to_nat size) (drop p code_bytes) = drop p code_bytes).
    { apply take_ge. rewrite length_drop. lia. }
    rewrite Hall, Hall', length_drop. do 3 f_equal. lia.
  - rewrite length_take, length_drop. do 3 f_equal. lia.
Qed.

Lemma next_at (code_bytes : bytes) (p : nat) :
  CodeStream.next (stream_at code_bytes p)
  = match code_bytes !! p with
    | Some b => (ord b, stream_at code_bytes (S p))
    | None => (opcodes.STOP, stream_at code_bytes p)
    end.
Proof.
  unfold CodeStream.next. rewrite read_at by lia.
  change (Z.to_nat 1) with 1%nat.
  destruct (code_bytes !! p) as [b |] eqn:Hb.
  - rewrite (drop_S _ _ _ Hb). simpl. rewrite ?take_0. simpl.
    do 2 f_equal. lia.
  - apply lookup_ge_None in Hb. rewrite drop_ge by lia. simpl.
    do 2 f_equal. lia.
Qed.

(** [peek] returns the opcode that [next] would fetch and leaves the
    stream, cursor included, as it was. *)
Theorem peek_does_not_advance (cs : CodeStream.t) :
  pc_in_code cs ->
  CodeStream.peek cs = Ok (fst (CodeStream.next cs), cs).
Proof.
  intros Hpc. pose proof (pc_in_code_next cs Hpc) as Hnext.
  unfold CodeStream.peek.
  assert (Hcode : code_of (snd (CodeStream.next cs)) = code_of cs).
  { destruct cs as [[b p]]. reflexivity. }
  destruct (CodeStream.next cs) as [opcode cs'] eqn:E. simpl in *.
  unfold pc_in_code in Hpc. rewrite set_pc_in_range by lia. simpl.
  rewrite Hcode.
  assert (Hlen : CodeStream.length cs' = CodeStream.length cs).
  { unfold CodeStream.length. unfold code_of in Hcode. rewrite Hcode. reflexivity. }
  rewrite Hlen, Z.min_l by lia.
  destruct cs as [[b p]]. reflexivity.
Qed.

Lemma peek_does_not_advance_witness :
  let cs := CodeStream.init [x60; x01] in
  CodeStream.peek cs = Ok (0x60, cs)
  /\ CodeStream.peek (snd (fetch 2 cs)) = Ok (0x00, snd (fetch 2 cs)).
Proof.
  intros cs. split.
  - apply (peek_does_not_advance cs). vm_compute. split; discriminate.
  - apply (peek_does_not_advance (snd (fetch 2 cs))). vm_compute. split; discriminate.
Defined.

Lemma fetch_at (code_bytes : bytes) (n : nat) :
  forall p : nat,
    (p <= length code_bytes)%nat ->
    fetch n (stream_at code_bytes p)
    = (map ord (take n (drop p code_bytes))
         ++ replicate (n - (length code_bytes - p)) opcodes.STOP,
       stream_at code_bytes (Nat.min (p + n) (length code_bytes))).
Proof.
  induction n as [| n IH]; intros p Hp.
  - simpl. rewrite Nat.add_0_r, Nat.min_l by lia. reflexivity.
  - cbn [fetch]. rewrite next_at.
    destruct (code_bytes !! p) as [b |] eqn:Hb.
    + pose proof (lookup_lt_Some _ _ _ Hb) as Hlt.
      rewrite IH by lia. rewrite (drop_S _ _ _ Hb). cbn [firstn map app].
      replace (S n - (length code_bytes - p))%nat
        with (n - (length code_bytes - S p))%nat by lia.
      replace (p + S n)%nat with (S p + n)%nat by lia. reflexivity.
    + apply lookup_ge_None in Hb. assert (p = length code_bytes) as -> by lia.
      rewrite IH by lia. rewrite drop_all, !take_nil.
      rewrite !Nat.sub_diag, !Nat.sub_0_r. cbn [map app replicate].
      rewrite !Nat.min_r by lia. reflexivity.
Qed.

(** Fetching [n] opcodes from the start of a code yields its first [n]
    bytes in order, then STOP for every fetch past its end; the cursor
    stops at the end of the code. *)
Theorem fetch_yields_code_then_stop (code_bytes : bytes) (n : nat) :
  fetch n (CodeStream.init code_bytes)
  = (map ord (take n code_bytes) ++ replicate (n - length code_bytes) opcodes.STOP,
     stream_at code_bytes (Nat.min n (length code_bytes))).
Proof.
  change (CodeStream.init code_bytes) with (stream_at code_bytes 0).
  rewrite fetch_at by lia. rewrite drop_0, Nat.sub_0_r. reflexivity.
Qed.





(** ** The stack as a LIFO *)

Lemma push_all_words (words : list bytes) :
  forall vs : list bytes,
    len vs + len words <= 1024 ->
    Forall (fun w => len w <= 32) words ->
    push_all (Stack.mk vs) words = (Stack.mk (vs ++ words), Ok tt).
Proof.
  induction words as [| w rest IH]; intros vs Hlen Hwords; simpl.
  - rewrite app_nil_r. reflexivity.
  - apply Forall_cons in Hwords as [Hw Hrest].
    assert (Hl : len (w :: rest) = len rest + 1) by (unfold len; simpl; lia).
    pose proof (len_nonneg rest).
    rewrite push_word by (unfold Stack.length; simpl; lia). simpl.
    rewrite IH by (rewrite ?len_snoc; assumption || lia).
    rewrite <- app_assoc. reflexivity.
Qed.

Lemma pop_n_words (words : list bytes) :
  forall vs : list bytes,
    pop_n (length words) (Stack.mk (vs ++ words)) = (Stack.mk vs, Ok (reverse words)).
Proof.
  induction words as [| w rest IH] using rev_ind; intros vs.
  - simpl. rewrite app_nil_r. reflexivity.
  - rewrite length_app, Nat.add_comm. simpl.
    rewrite app_assoc, pop_top, IH, reverse_snoc. reflexivity.
Qed.

(** Words pushed onto a stack that has room for them come back in the
    reverse order, byte for byte, when as many items are popped, and the
    stack is then what it was before. *)
Theorem stack_is_lifo (s : Stack.t) (words : list bytes) :
  Stack.length s + len words <= 1024 ->
  Forall (fun w => len w <= 32) words ->
  exists s', push_all s words = (s', Ok tt)
             /\ Stack.values s' = Stack.values s ++ words
             /\ pop_n (length words) s' = (s, Ok (reverse words)).
Proof.
  intros Hlen Hwords. destruct s as [vs]. unfold Stack.length in Hlen. simpl in Hlen.
  exists (Stack.mk (vs ++ words)). split; [apply push_all_words; assumption |].
  split; [reflexivity | apply pop_n_words].
Qed.

Lemma stack_is_lifo_witness :
  let s := Stack.mk [[x07]] in
  exists s', push_all s [[x01]; []; [x02; x03]] = (s', Ok tt)
             /\ pop_n 3 s' = (s, Ok [[x02; x03]; []; [x01]]).
Proof.
  intros s.
  destruct (stack_is_lifo s [[x01]; []; [x02; x03]]) as (s' & Hpush & _ & Hpop).
  - vm_compute. discriminate.
  - repeat constructor; vm_compute; discriminate.
  - exists s'. split; [exact Hpush | exact Hpop].
Defined.

(** What a [swap] that finds both items leaves. *)
Lemma swap_values (vs : list bytes) (n : Z) :
  1 <= n -> n < len vs ->
  exists a b : bytes,
    vs !! Z.to_nat (len vs - n - 1) = Some a
    /\ vs !! Z.to_nat (len vs - 1) = Some b
    /\ Stack.swap (Stack.mk vs) n
       = (Stack.mk (<[Z.to_nat (len vs - n - 1) := b]>
                      (<[Z.to_nat (len vs - 1) := a]> vs)), Ok tt).
Proof.
  intros Hn Hlen. unfold Stack.swap. simpl.
  unfold py_get, py_set.
  rewrite !py_position_from_end by lia.
  replace (Z.to_nat (-1 * n - 1 + len vs)) with (Z.to_nat (len vs - n - 1)) by lia.
  replace (Z.to_nat (-1 + len vs)) with (Z.to_nat (len vs - 1)) by lia.
  destruct (lookup_lt_is_Some_2 vs (Z.to_nat (len vs - n - 1))) as [a Ha];
    [unfold len in *; lia |].
  destruct (lookup_lt_is_Some_2 vs (Z.to_nat (len vs - 1))) as [b Hb];
    [unfold len in *; lia |].
  exists a, b. rewrite Ha, Hb. split; [reflexivity |]. split; [reflexivity |].
  assert (Hl1 : len (<[Z.to_nat (len vs - 1) := a]> vs) = len vs)
    by (unfold len; rewrite length_insert; reflexivity).
  rewrite py_position_from_end by lia. rewrite Hl1.
  replace (Z.to_nat (-1 * n - 1 + len vs)) with (Z.to_nat (len vs - n - 1)) by lia.
  reflexivity.
Qed.

Lemma swap_too_shallow (vs : list bytes) (n : Z) :
  len vs <= n ->
  Stack.swap (Stack.mk vs) n = (Stack.mk vs, Raise (VMErr InsufficientStack)).
Proof.
  intros Hlen. unfold Stack.swap. simpl. unfold py_get at 1.
  rewrite py_position_too_deep by lia. reflexivity.
Qed.

(** A [swap] that succeeds is undone by the same [swap]. *)
Theorem stack_swap_twice (s s' : Stack.t) (n : Z) :
  1 <= n ->
  Stack.swap s n = (s', Ok tt) ->
  Stack.swap s' n = (s, Ok tt).
Proof.
  intros Hn Hswap. destruct s as [vs].
  destruct (Z.le_gt_cases (len vs) n) as [Hshallow | Hdeep].
  { rewrite swap_too_shallow in Hswap by exact Hshallow. discriminate Hswap. }
  destruct (swap_values vs n Hn ltac:(lia)) as (a & b & Ha & Hb & Hvs).
  rewrite Hvs in Hswap. injection Hswap as <-.
  set (i := Z.to_nat (len vs - n - 1)) in *. set (t := Z.to_nat (len vs - 1)) in *.
  assert (Hi : (i < length vs)%nat) by (subst i; unfold len in *; lia).
  assert (Ht : (t < length vs)%nat) by (subst t; unfold len in *; lia).
  assert (Hit : i <> t) by (subst i t; unfold len in *; lia).
  set (vs' := <[i := b]> (<[t := a]> vs)).
  assert (Hl : len vs' = len vs).
  { subst vs'. unfold len. rewrite !length_insert. reflexivity. }
  destruct (swap_values vs' n Hn ltac:(lia)) as (a' & b' & Ha' & Hb' & Hvs').
  rewrite Hl in Ha', Hb', Hvs'. fold i t in Ha', Hb', Hvs'.
  subst vs'.
  rewrite list_lookup_insert_eq in Ha' by (rewrite length_insert; exact Hi).
  rewrite list_lookup_insert_ne in Hb' by exact Hit.
  rewrite list_lookup_insert_eq in Hb' by exact Ht.
  injection Ha' as <-. injection Hb' as <-.
  rewrite Hvs'. f_equal. f_equal.
  apply list_eq. intros j.
  destruct (decide (j = i)) as [-> | Hji].
  - rewrite list_lookup_insert_eq by (rewrite !length_insert; exact Hi).
    symmetry. exact Ha.
  - rewrite list_lookup_insert_ne by congruence.
    destruct (decide (j = t)) as [-> | Hjt].
    + rewrite list_lookup_insert_eq by (rewrite !length_insert; exact Ht).
      symmetry. exact Hb.
    + rewrite !list_lookup_insert_ne by congruence. reflexivity.
Qed.

Lemma stack_swap_twice_witness :
  let s := Stack.mk [[x01]; [x02]; [x03]] in
  Stack.swap s 2 = (Stack.mk [[x03]; [x02]; [x01]], Ok tt)
  /\ Stack.swap (Stack.mk [[x03]; [x02]; [x01]]) 2 = (s, Ok tt).
Proof.
  intros s. split; [reflexivity |].
  apply (stack_swap_twice s (Stack.mk [[x03]; [x02]; [x01]]) 2);
    [lia | reflexivity].
Defined.

(** ** Memory: growth and writes *)

Lemma ceil32_ge (v : Z) : v <= ceil32 v.
Proof. unfold ceil32. Z.div_mod_to_equations. lia. Qed.



(** [write] returns exactly when [start] and [size] are uint256, the
    value has [size] bytes and the range lies within the memory, and it
    raises [ValidationError] otherwise; a [write] that returns leaves
    every byte outside the range as it was. *)
Theorem memory_write_validates (m : Memory.t) (start size : Z) (value : bytes) :
  ((exists m', Memory.write m start size value = Ok m')
   <-> 0 <= start <= UINT_256_MAX /\ 0 <= size <= UINT_256_MAX
       /\ len value = size /\ start + size <= Memory.length m)
  /\ (forall e, Memory.write m start size value = Raise e -> e = ValidationError)
  /\ (forall m', Memory.write m start size value = Ok m' ->
      forall i : nat, Z.of_nat i < start \/ start + size <= Z.of_nat i ->
                      Memory.bytes_ m' !! i = Memory.bytes_ m !! i).
Proof.
  split; [| split].
  - split.
    + intros [m' Hw]. pose proof Hw as Hw'.
      apply write_returns in Hw' as (_ & _ & Hv & Hle & _).
      unfold Memory.write, validate_uint256, bind in Hw.
      destruct (is_uint256 start) eqn:E1; [| discriminate Hw].
      destruct (is_uint256 size) eqn:E2; [| discriminate Hw].
      apply is_uint256_spec in E1, E2. tauto.
    + intros (Hs & Hz & Hv & Hle).
      unfold Memory.write, validate_uint256, validate_length, validate_lte.
      apply is_uint256_spec in Hs, Hz. rewrite Hs, Hz. cbn [bind].
      apply Z.eqb_eq in Hv. rewrite Hv. cbn [bind].
      apply Z.leb_le in Hle. rewrite Hle. cbn [bind]. eexists. reflexivity.
  - intros e. unfold Memory.write, validate_uint256, validate_length, validate_lte, bind.
    destruct (is_uint256 start); [| congruence].
    destruct (is_uint256 size); [| congruence].
    destruct (len value =? size); [| congruence].
    destruct (start + size <=? Memory.length m); congruence.
  - intros m' Hw i Hi.
    apply write_returns in Hw as (Hs & Hz & Hv & Hle & Hb). rewrite Hb.
    unfold Memory.length, len in *.
    destruct Hi as [Hlow | Hhigh].
    + rewrite lookup_app_l by (rewrite length_take; lia).
      apply lookup_take_lt. lia.
    + rewrite lookup_app_r by (rewrite length_take; lia).
      rewrite lookup_app_r by (rewrite length_take; lia).
      rewrite lookup_drop, length_take. f_equal. lia.
Qed.

(** ** The gas meter never gives gas back *)

Lemma gas_step_monotone (tr : gas_trace) (c : gas_call) :
  let g1 := traced_meter tr in
  let g2 := traced_meter (gas_step tr c) in
  GasMeter.gas_remaining g2 <= GasMeter.gas_remaining g1
  /\ GasMeter.gas_refunded g1 <= GasMeter.gas_refunded g2
  /\ (GasMeter.is_out_of_gas g1 = true ->
      GasMeter.deductions g2 = GasMeter.deductions g1).
Proof.
  intros g1 g2. subst g1 g2.
  destruct c as [amount | amount | amount]; simpl;
    unfold GasMeter.consume_gas, GasMeter.return_gas, GasMeter.refund_gas,
           validate_uint256, bind;
    destruct (is_uint256 amount) eqn:Ea; simpl;
    try (split; [lia | split; [lia | reflexivity]]);
    apply is_uint256_spec in Ea.
  - destruct (GasMeter.is_out_of_gas (traced_meter tr)) eqn:Eout; simpl.
    + split; [lia | split; [lia | reflexivity]].
    + unfold GasMeter.gas_remaining, GasMeter.gas_used, GasMeter.gas_refunded. simpl.
      rewrite sum_snoc. split; [lia | split; [lia | discriminate]].
  - unfold GasMeter.gas_remaining, GasMeter.gas_used, GasMeter.gas_refunded. simpl.
    rewrite sum_snoc. split; [lia | split; [lia | reflexivity]].
  - unfold GasMeter.gas_remaining, GasMeter.gas_used, GasMeter.gas_refunded. simpl.
    rewrite sum_snoc. split; [lia | split; [lia | reflexivity]].
Qed.

(** Over any sequence of [consume_gas], [return_gas] and [refund_gas]
    calls [gas_remaining] never rises and [gas_refunded] never falls; a
    meter that is out of gas stays out of gas, and nothing is appended to
    its [deductions] any more. *)
Theorem gas_meter_is_monotone (g : GasMeter.t) (calls : list gas_call) :
  let g' := traced_meter (run_gas_calls g calls) in
  GasMeter.gas_remaining g' <= GasMeter.gas_remaining g
  /\ GasMeter.gas_refunded g <= GasMeter.gas_refunded g'
  /\ (GasMeter.is_out_of_gas g = true ->
      GasMeter.is_out_of_gas g' = true
      /\ GasMeter.deductions g' = GasMeter.deductions g).
Proof.
  unfold run_gas_calls.
  assert (Hgen : forall tr,
            let g' := traced_meter (fold_left gas_step calls tr) in
            GasMeter.gas_remaining g' <= GasMeter.gas_remaining (traced_meter tr)
            /\ GasMeter.gas_refunded (traced_meter tr) <= GasMeter.gas_refunded g'
            /\ (GasMeter.is_out_of_gas (traced_meter tr) = true ->
                GasMeter.deductions g' = GasMeter.deductions (traced_meter tr))).
  { induction calls as [| c calls IH]; intros tr; simpl.
    - split; [lia | split; [lia | reflexivity]].
    - destruct (IH (gas_step tr c)) as (H1 & H2 & H3).
      destruct (gas_step_monotone tr c) as (S1 & S2 & S3).
      split; [lia | split; [lia |]].
      intros Hout. rewrite H3, S3; [reflexivity | exact Hout |].
      unfold GasMeter.is_out_of_gas in *. apply Z.ltb_lt. apply Z.ltb_lt in Hout. lia. }
  destruct (Hgen (mkGasTrace g [] [] [])) as (H1 & H2 & H3). simpl in *.
  split; [exact H1 | split; [exact H2 |]].
  intros Hout. split; [| apply H3, Hout].
  unfold GasMeter.is_out_of_gas in *. apply Z.ltb_lt. apply Z.ltb_lt in Hout. lia.
Qed.

(** ** Account deletions *)

Lemma register_step_fresh (self : ExecutionEnvironment) (beneficiary : address) :
  accounts_to_delete self = [] ->
  message (register_step self beneficiary) = message self
  /\ accounts_to_delete (register_step self beneficiary)
     = if decide (len beneficiary = 20)
       then [(Message.account (message self), beneficiary)]
       else [].
Proof.
  intros Hnone. unfold register_step, register_account_for_deletion,
    validate_canonical_address, bind.
  destruct (decide (len beneficiary = 20)) as [E | E].
  - apply Z.eqb_eq in E. rewrite E, Hnone. simpl. split; reflexivity.
  - apply Z.eqb_neq in E. rewrite E. split; [reflexivity | exact Hnone].
Qed.

Lemma register_step_taken (self : ExecutionEnvironment) (beneficiary b0 : address) :
  accounts_to_delete self = [(Message.account (message self), b0)] ->
  register_step self beneficiary = self
  /\ (len beneficiary = 20 ->
      register_account_for_deletion self beneficiary = Raise ValueError).
Proof.
  intros Hone. unfold register_step, register_account_for_deletion,
    validate_canonical_address, bind.
  destruct (len beneficiary =? 20) eqn:E.
  - rewrite Hone. simpl.
    rewrite bool_decide_eq_true_2 by (apply list_elem_of_here).
    split; reflexivity.
  - split; [reflexivity |]. intros H. apply Z.eqb_eq in H. congruence.
Qed.

(** On a frame without pending deletion, whatever the sequence of
    [register_account_for_deletion] calls, at most one deletion is
    pending: that of the account of the frame, in favour of the first
    beneficiary of the sequence that is a 20-byte address.  Once it is
    pending, a further registration raises [ValueError]. *)
Theorem one_deletion_per_frame (self : ExecutionEnvironment)
    (beneficiaries : list address) :
  accounts_to_delete self = [] ->
  let self' := register_all self beneficiaries in
  accounts_to_delete self'
  = match head (filter (fun b => len b = 20) beneficiaries) with
    | Some b => [(Message.account (message self), b)]
    | None => []
    end
  /\ (accounts_to_delete self' <> [] ->
      forall b, len b = 20 ->
                register_account_for_deletion self' b = Raise ValueError).
Proof.
  intros Hnone self'. subst self'. unfold register_all.
  assert (Htaken : forall bs s b0,
            accounts_to_delete s = [(Message.account (message s), b0)] ->
            fold_left register_step bs s = s).
  { induction bs as [| b bs IH]; intros s b0 Hs; simpl; [reflexivity |].
    destruct (register_step_taken s b b0 Hs) as [-> _]. apply (IH s b0 Hs). }
  assert (Hgen : forall bs s,
            accounts_to_delete s = [] ->
            message (fold_left register_step bs s) = message s
            /\ accounts_to_delete (fold_left register_step bs s)
               = match head (filter (fun b => len b = 20) bs) with
                 | Some b => [(Message.account (message s), b)]
                 | None => []
                 end).
  { induction bs as [| b bs IH]; intros s Hs; simpl.
    - split; [reflexivity | exact Hs].
    - destruct (register_step_fresh s b Hs) as [Hm Ha].
      rewrite filter_cons. destruct (decide (len b = 20)) as [E | E].
      + simpl. rewrite <- Hm in Ha. rewrite (Htaken bs _ b Ha).
        split; [exact Hm |]. rewrite Ha, Hm. reflexivity.
      + destruct (IH _ Ha) as [Hm' Ha']. rewrite Hm', Ha', Hm.
        split; reflexivity. }
  destruct (Hgen beneficiaries self Hnone) as [Hm Ha].
  split; [exact Ha |].
  intros Hsome b Hb. rewrite Ha in Hsome.
  destruct (head (filter (fun b => len b = 20) beneficiaries)) as [b0 |];
    [| congruence].
  rewrite <- Hm in Ha.
  destruct (register_step_taken _ b b0 Ha) as [_ Hraise]. apply Hraise, Hb.
Qed.

Lemma one_deletion_per_frame_witness :
  let self := register_all Example.parent [[x01]; Example.bob; Example.carol] in
  accounts_to_delete self = [(Example.dave, Example.bob)]
  /\ register_account_for_deletion self Example.alice = Raise ValueError.
Proof.
  intros self.
  destruct (one_deletion_per_frame Example.parent
              [[x01]; Example.bob; Example.carol] eq_refl) as [Hlist Hraise].
  fold self in Hlist, Hraise. split; [exact Hlist |].
  apply Hraise; [rewrite Hlist; discriminate | reflexivity].
Defined.

(** What the scope guard does on a normal exit for a frame with one
    pending deletion: the code and the storage of the account are
    deleted; when the beneficiary is another account, the balance of the
    account goes to it and the account keeps nothing; when the account is
    its own beneficiary, it keeps its balance.  No other balance, code or
    storage changes, the frame is unchanged and nothing is suppressed. *)
Theorem exit_commits_deletion (evm : EVM) (self : ExecutionEnvironment)
    (account beneficiary : address) :
  accounts_to_delete self = [(account, beneficiary)] ->
  let r := __exit__ evm self None in
  let s := storage evm in
  let s' := storage (fst (fst r)) in
  snd (fst r) = self /\ snd r = false
  /\ Storage.codes s' !! account = None
  /\ Storage.slots s' !! account = None
  /\ (forall a, a <> account ->
                Storage.codes s' !! a = Storage.codes s !! a
                /\ Storage.slots s' !! a = Storage.slots s !! a)
  /\ (account <> beneficiary ->
      Storage.get_balance s' account = 0
      /\ Storage.get_balance s' beneficiary
         = Storage.get_balance s beneficiary + Storage.get_balance s account)
  /\ (account = beneficiary ->
      Storage.get_balance s' account = Storage.get_balance s account)
  /\ (forall a, a <> account -> a <> beneficiary ->
                Storage.get_balance s' a = Storage.get_balance s a).
Proof.
  intros Hone r s s'. subst r s s'. unfold __exit__. rewrite Hone. simpl.
  unfold Storage.get_balance. simpl.
  split; [reflexivity |]. split; [reflexivity |].
  split; [apply lookup_delete_eq |]. split; [apply lookup_delete_eq |].
  split; [| split; [| split]].
  - intros a Ha. rewrite !lookup_delete_ne by congruence. split; reflexivity.
  - intros Hne. rewrite lookup_insert_eq.
    rewrite (lookup_insert_ne _ beneficiary account) by congruence.
    rewrite lookup_insert_eq.
    rewrite (lookup_insert_ne _ account beneficiary) by congruence.
    split; reflexivity.
  - intros <-. rewrite !lookup_insert_eq. simpl. lia.
  - intros a Ha Hb. rewrite !lookup_insert_ne by congruence. reflexivity.
Qed.

Lemma exit_commits_deletion_witness :
  match Example.doomed_frame with
  | Ok frame =>
    let s' := storage (fst (fst (__exit__ Example.world frame None))) in
    Storage.get_balance s' Example.alice = 0
    /\ Storage.get_balance s' Example.bob = 15
    /\ Storage.get_balance s' Example.dave = 7
  | Raise _ => False
  end.
Proof.
  destruct Example.doomed_frame as [frame |] eqn:E; [| vm_compute in E; discriminate E].
  assert (Hone : accounts_to_delete frame = [(Example.alice, Example.bob)]).
  { vm_compute in E. injection E as <-. reflexivity. }
  destruct (exit_commits_deletion Example.world frame Example.alice Example.bob Hone)
    as (_ & _ & _ & _ & _ & Hmove & _ & Hother).
  destruct Hmove as [Ha Hb]; [vm_compute; discriminate |].
  cbv zeta. rewrite Ha, Hb. rewrite Hother by (vm_compute; discriminate).
  vm_compute. repeat split.
Defined.

(** ** Messages *)

Lemma Message_init_valid (gas gas_price : Z) (origin account sender : address)
    (value : Z) (data : bytes) (depth : Z) :
  let m := Message.mk gas gas_price origin account sender value data depth in
  (valid_message m ->
     Message.init gas gas_price origin account sender value data depth = Ok m)
  /\ (~ valid_message m ->
      Message.init gas gas_price origin account sender value data depth
      = Raise ValidationError).
Proof.
  intros m. subst m. unfold valid_message, Message.init, validate_uint256,
    validate_canonical_address, validate_gte, bind. simpl.
  assert (Hnot : forall v, is_uint256 v = false -> ~ (0 <= v <= UINT_256_MAX)).
  { intros v E H. apply is_uint256_spec in H. congruence. }
  assert (Hyes : forall v, is_uint256 v = true -> 0 <= v <= UINT_256_MAX).
  { intros v E. apply is_uint256_spec, E. }
  destruct (is_uint256 gas) eqn:Eg;
    [| split; [intros H; exfalso; apply (Hnot _ Eg); tauto | reflexivity]].
  destruct (is_uint256 gas_price) eqn:Ep;
    [| split; [intros H; exfalso; apply (Hnot _ Ep); tauto | reflexivity]].
  destruct (Z.eqb_spec (len origin) 20); [| split; [tauto | reflexivity]].
  destruct (Z.eqb_spec (len account) 20); [| split; [tauto | reflexivity]].
  destruct (Z.eqb_spec (len sender) 20); [| split; [tauto | reflexivity]].
  destruct (is_uint256 value) eqn:Ev;
    [| split; [intros H; exfalso; apply (Hnot _ Ev); tauto | reflexivity]].
  destruct (Z.leb_spec 0 depth) as [Hd | Hd];
    [| split; [intros Hvalid; exfalso; lia | reflexivity]].
  split; [reflexivity |]. intros Hn. exfalso. apply Hn.
  apply Hyes in Eg, Ep, Ev. tauto.
Qed.

(** A frame whose message is valid creates, for a uint256 [gas] and
    [value] and a 20-byte [to], a valid child message one level deeper,
    sent by the account of the frame to [to], with the origin and the gas
    price of the frame; for any other [gas], [value] or [to] it raises
    [ValidationError]. *)
Theorem create_message_child (self : ExecutionEnvironment)
    (gas : Z) (to : address) (value : Z) (data : bytes) :
  valid_message (message self) ->
  let child := Message.mk gas (Message.gas_price (message self))
                          (Message.origin (message self)) to
                          (Message.account (message self)) value data
                          (Message.depth (message self) + 1) in
  (0 <= gas <= UINT_256_MAX /\ len to = 20 /\ 0 <= value <= UINT_256_MAX ->
     create_message self gas to value data = Ok child /\ valid_message child)
  /\ (~ (0 <= gas <= UINT_256_MAX /\ len to = 20 /\ 0 <= value <= UINT_256_MAX) ->
      create_message self gas to value data = Raise ValidationError).
Proof.
  intros Hparent child. unfold create_message.
  destruct (Message_init_valid gas (Message.gas_price (message self))
              (Message.origin (message self)) to (Message.account (message self))
              value data (Message.depth (message self) + 1)) as [Hok Hbad].
  fold child in Hok, Hbad.
  destruct Hparent as (Hg & Hp & Ho & Ha & Hs & Hv & Hd).
  split.
  - intros (Hgas & Hto & Hvalue).
    assert (Hchild : valid_message child).
    { unfold valid_message, child. simpl. repeat split; try assumption; lia. }
    split; [apply Hok, Hchild | exact Hchild].
  - intros Hn. apply Hbad. intros Hchild. apply Hn.
    unfold valid_message, child in Hchild. simpl in Hchild. tauto.
Qed.

Lemma create_message_child_witness :
  create_message Example.parent 100 Example.dave 0 [] = Ok Example.child
  /\ create_message Example.parent 100 [x01] 0 [] = Raise ValidationError
  /\ create_message Example.parent (-1) Example.dave 0 [] = Raise ValidationError.
Proof.
  assert (Hparent : valid_message (message Example.parent)).
  { vm_compute. repeat split; discriminate. }
  destruct (create_message_child Example.parent 100 Example.dave 0 [] Hparent)
    as [Hok _].
  destruct (create_message_child Example.parent 100 [x01] 0 [] Hparent)
    as [_ Hto].
  destruct (create_message_child Example.parent (-1) Example.dave 0 [] Hparent)
    as [_ Hgas].
  split; [| split].
  - apply Hok. vm_compute. repeat split; discriminate.
  - apply Hto. vm_compute. intros (_ & H & _). discriminate H.
  - apply Hgas. vm_compute. intros ((H & _) & _). apply H. reflexivity.
Defined.

(** ** The loop of the interpreter *)

Lemma STOP_is_break : opcodes.STOP ∈ BREAK_OPCODES.
Proof. unfold BREAK_OPCODES. set_solver. Qed.

Section LoopProperties.

Variable validate_opcode : Z -> result unit.
Variable OPCODE_GAS_COSTS : Z -> Z.
Variable OPCODE_LOGIC_FUNCTIONS : host_apply -> Z -> opcode_fn.

#[local] Abbreviation loop :=
  (run_opcodes validate_opcode OPCODE_GAS_COSTS OPCODE_LOGIC_FUNCTIONS).
#[local] Abbreviation run_frame :=
  (execute_vm validate_opcode OPCODE_GAS_COSTS OPCODE_LOGIC_FUNCTIONS).
#[local] Abbreviation apply_to_host :=
  (apply_message validate_opcode OPCODE_GAS_COSTS OPCODE_LOGIC_FUNCTIONS).

(** A frame whose cursor is at the end of its code, or at a STOP, RETURN
    or SUICIDE byte, ends with the round that dispatches this opcode,
    whatever the opcode does: more fuel than one round changes nothing. *)
Theorem loop_ends_at_break (apply : host_apply) (fuel : nat)
    (evm : EVM) (environment : ExecutionEnvironment) :
  let code := State.code (state environment) in
  CodeStream.pc code = CodeStream.length code
  \/ fst (CodeStream.next code) ∈ BREAK_OPCODES ->
  loop apply (S fuel) (evm, environment) = loop apply 1 (evm, environment)
  /\ run_frame apply (S fuel) evm environment = run_frame apply 1 evm environment.
Proof.
  intros code Hbreak.
  assert (Hin : fst (CodeStream.next code) ∈ BREAK_OPCODES).
  { destruct Hbreak as [Hend | Hin]; [| exact Hin].
    rewrite (next_at_end code Hend). apply STOP_is_break. }
  assert (Hloop : loop apply (S fuel) (evm, environment)
                  = loop apply 1 (evm, environment)).
  { cbn [run_opcodes]. fold code.
    destruct (CodeStream.next code) as [opcode code']. cbn [fst] in Hin.
    destruct (get_opcode_fn _ _ _ _ opcode) as [fn | e]; [| reflexivity].
    destruct (fn (evm, set_code environment code')) as [[[evm' env'] [[] | e]] |];
      try reflexivity.
    rewrite bool_decide_eq_true_2 by exact Hin. reflexivity. }
  split; [exact Hloop |]. unfold execute_vm. rewrite Hloop. reflexivity.
Qed.

(** When the gas that remains does not cover the cost of the next opcode,
    the round ends the frame with the error [OutOfGas]: the cost is
    deducted and the gas is negative, the opcode function is not run, and
    the host, the stack, the memory and the pending deletions, logs and
    sub-frames are as they were. *)
Theorem dispatch_out_of_gas (apply : host_apply) (fuel : nat)
    (evm : EVM) (environment : ExecutionEnvironment) :
  let opcode := fst (CodeStream.next (State.code (state environment))) in
  let g := State.gas_meter (state environment) in
  validate_opcode opcode = Ok tt ->
  0 <= GasMeter.gas_remaining g < OPCODE_GAS_COSTS opcode ->
  OPCODE_GAS_COSTS opcode <= UINT_256_MAX ->
  exists environment',
    loop apply (S fuel) (evm, environment) = Some ((evm, environment'), Ok tt)
    /\ error environment' = Some OutOfGas
    /\ GasMeter.gas_remaining (State.gas_meter (state environment'))
       = GasMeter.gas_remaining g - OPCODE_GAS_COSTS opcode
    /\ State.stack (state environment') = State.stack (state environment)
    /\ State.memory (state environment') = State.memory (state environment)
    /\ accounts_to_delete environment' = accounts_to_delete environment
    /\ logs environment' = logs environment
    /\ sub_environments environment' = sub_environments environment.
Proof.
  intros opcode g Hvalid Hgas Hcost. subst opcode. cbn [run_opcodes].
  destruct (CodeStream.next (State.code (state environment))) as [opcode code'].
  cbn [fst] in *. unfold get_opcode_fn. rewrite Hvalid.
  unfold wrap_opcode_fn. cbn [set_code set_state state State.gas_meter].
  fold g. unfold GasMeter.consume_gas, validate_uint256.
  assert (Hu : is_uint256 (OPCODE_GAS_COSTS opcode) = true)
    by (apply is_uint256_spec; lia).
  assert (Hin : GasMeter.is_out_of_gas g = false)
    by (unfold GasMeter.is_out_of_gas; apply Z.ltb_ge; lia).
  rewrite Hu, Hin.
  set (g' := GasMeter.mk (GasMeter.start_gas g)
                         (GasMeter.deductions g ++ [OPCODE_GAS_COSTS opcode])
                         (GasMeter.returns g) (GasMeter.refunds g)).
  assert (Hrem : GasMeter.gas_remaining g'
                 = GasMeter.gas_remaining g - OPCODE_GAS_COSTS opcode).
  { unfold GasMeter.gas_remaining, GasMeter.gas_used. simpl. rewrite sum_snoc. lia. }
  assert (Hout : GasMeter.is_out_of_gas g' = true)
    by (unfold GasMeter.is_out_of_gas; apply Z.ltb_lt; lia).
  rewrite Hout. eexists. split; [reflexivity |].
  simpl. repeat split; try reflexivity. exact Hrem.
Qed.

(** A byte that [validate_opcode] refuses ends the frame with the error
    [InvalidOpcode]; no gas is charged for it, and the host, the stack and
    the memory are as they were. *)
Theorem invalid_opcode_ends_frame (apply : host_apply) (fuel : nat)
    (evm : EVM) (environment : ExecutionEnvironment) :
  validate_opcode (fst (CodeStream.next (State.code (state environment))))
  = Raise ValidationError ->
  exists environment',
    loop apply (S fuel) (evm, environment) = Some ((evm, environment'), Ok tt)
    /\ error environment' = Some InvalidOpcode
    /\ State.gas_meter (state environment') = State.gas_meter (state environment)
    /\ State.stack (state environment') = State.stack (state environment)
    /\ State.memory (state environment') = State.memory (state environment).
Proof.
  intros Hinvalid. cbn [run_opcodes].
  destruct (CodeStream.next (State.code (state environment))) as [opcode code'].
  cbn [fst] in *. unfold get_opcode_fn. rewrite Hinvalid. unfold invalid_op.
  eexists. split; [reflexivity |]. simpl. repeat split; reflexivity.
Qed.

Lemma raise_leaving_execute_vm (apply : host_apply) (fuel : nat)
    (evm evm' : EVM) (environment : ExecutionEnvironment) (e : Exception) :
  run_frame apply fuel evm environment = Some (evm', Raise e) ->
  is_VMError e = false.
Proof.
  unfold execute_vm.
  destruct (loop apply fuel (evm, environment)) as [[[evm1 env1] [[] | e1]] |];
    [discriminate | | discriminate].
  destruct e1; simpl; intros H;
    first [discriminate H | injection H as <- <-; reflexivity].
Qed.

(** [execute_vm] never raises a [VMError]: an error of the VM that leaves
    the loop is stored in the frame by the scope guard, and the frame is
    returned.  When [execute_vm] does raise, the exception is the one
    that left the loop and the host is as the loop left it: the guard has
    carried out no deletion. *)
Theorem execute_vm_never_raises_VMError (apply : host_apply) (fuel : nat)
    (evm evm' : EVM) (environment : ExecutionEnvironment) (e : Exception) :
  run_frame apply fuel evm environment = Some (evm', Raise e) ->
  is_VMError e = false
  /\ exists environment',
       loop apply fuel (evm, environment) = Some ((evm', environment'), Raise e).
Proof.
  intros H. split; [apply (raise_leaving_execute_vm _ _ _ _ _ _ H) |].
  unfold execute_vm in H.
  destruct (loop apply fuel (evm, environment)) as [[[evm1 env1] [[] | e1]] |];
    [discriminate H | | discriminate H].
  destruct e1; simpl in H;
    first [discriminate H | injection H as <- <-; eexists; reflexivity].
Qed.

(** The only [VMError] that [apply_message] raises is the
    [StackDepthLimit] of its own message, raised with the host untouched;
    every other error of the VM, also of a nested call, ends up in the
    [error] of a frame. *)
Theorem apply_message_raises_only_depth_limit (fuel : nat) (evm evm' : EVM)
    (message : Message.t) (err : VMError) :
  apply_to_host fuel evm message = Some (evm', Raise (VMErr err)) ->
  err = StackDepthLimit /\ 1024 <= Message.depth message /\ evm' = evm.
Proof.
  intros H.
  assert (Hsetup : forall evm0 e, setup_environment evm0 message = Raise e ->
                                  e = ValidationError).
  { intros evm0 e. unfold setup_environment, ExecutionEnvironment_init, State.init,
      GasMeter.init, validate_uint256, bind.
    destruct (is_uint256 (Message.gas message)); [discriminate | congruence]. }
  destruct (Z.le_gt_cases 1024 (Message.depth message)) as [Hdepth | Hdepth].
  { rewrite apply_message_depth_limit in H by exact Hdepth.
    injection H as <- <-. repeat split; first [reflexivity | exact Hdepth]. }
  exfalso.
  assert (E1 : (Message.depth message >=? 1024) = false).
  { rewrite Z.geb_leb. apply Z.leb_gt. lia. }
  destruct fuel as [| fuel']; simpl in H; rewrite E1 in H;
    match type of H with
    | context [let (_, _) := ?t in _] =>
      assert (Ht : forall ev e0, t = (ev, Raise e0) -> e0 = NameError "InsufficientFunds")
        by (intros ev e0;
            destruct (Message.value message =? 0); [discriminate |];
            destruct (_ <? _); [congruence | discriminate]);
      destruct t as [evm1 [[] | e0]] eqn:Et
    end;
    try (specialize (Ht _ _ eq_refl); subst e0; discriminate H);
    (destruct (setup_environment evm1 message) as [environment | e0] eqn:Es;
     [| apply Hsetup in Es; subst e0; discriminate H]).
  - discriminate H.
  - destruct (execute_vm _ _ _ _ _ _ _) as [[evm2 [result_environment | e0]] |] eqn:Er;
      try discriminate H.
    + destruct (error result_environment); discriminate H.
    + apply raise_leaving_execute_vm in Er. injection H as _ ->.
      discriminate Er.
Qed.

End LoopProperties.

Lemma loop_ends_at_break_witness :
  Example.execute 6 (Example.apply_message 6) Example.world Scenario.idle_frame
  = Example.execute 1 (Example.apply_message 6) Example.world Scenario.idle_frame
  /\ match Example.execute 1 (Example.apply_message 6) Example.world
             Scenario.idle_frame with
     | Some (_, Ok frame) => error frame = None
     | _ => False
     end.
Proof.
  split; [| vm_compute; reflexivity].
  apply (loop_ends_at_break Example.validate_opcode Example.OPCODE_GAS_COSTS
           Example.OPCODE_LOGIC_FUNCTIONS (Example.apply_message 6) 5
           Example.world Scenario.idle_frame).
  left. reflexivity.
Defined.

Lemma dispatch_out_of_gas_witness :
  exists frame,
    run_opcodes Example.validate_opcode Example.OPCODE_GAS_COSTS
                Example.OPCODE_LOGIC_FUNCTIONS (Example.apply_message 3) 3
                (Example.world, Scenario.poor_frame)
    = Some ((Example.world, frame), Ok tt)
    /\ error frame = Some OutOfGas
    /\ GasMeter.gas_remaining (State.gas_meter (state frame)) = -1
    /\ State.stack (state frame) = Stack.init.
Proof.
  destruct (dispatch_out_of_gas Example.validate_opcode Example.OPCODE_GAS_COSTS
              Example.OPCODE_LOGIC_FUNCTIONS (Example.apply_message 3) 2
              Example.world Scenario.poor_frame)
    as (frame & Hrun & Herr & Hgas & Hstack & _).
  - reflexivity.
  - vm_compute. split; [discriminate | reflexivity].
  - vm_compute. discriminate.
  - exists frame. split; [exact Hrun |]. split; [exact Herr |].
    split; [rewrite Hgas; reflexivity | exact Hstack].
Defined.

Lemma invalid_opcode_ends_frame_witness :
  exists frame,
    run_opcodes Scenario.strict_validate_opcode Example.OPCODE_GAS_COSTS
                Example.OPCODE_LOGIC_FUNCTIONS (Example.apply_message 3) 3
                (Example.world, Scenario.bad_frame)
    = Some ((Example.world, frame), Ok tt)
    /\ error frame = Some InvalidOpcode
    /\ GasMeter.gas_remaining (State.gas_meter (state frame)) = 50.
Proof.
  destruct (invalid_opcode_ends_frame Scenario.strict_validate_opcode
              Example.OPCODE_GAS_COSTS Example.OPCODE_LOGIC_FUNCTIONS
              (Example.apply_message 3) 2 Example.world Scenario.bad_frame)
    as (frame & Hrun & Herr & Hgas & _).
  - reflexivity.
  - exists frame. split; [exact Hrun |]. split; [exact Herr |].
    rewrite Hgas. reflexivity.
Defined.

Lemma execute_vm_never_raises_VMError_witness :
  Example.execute 5 (Example.apply_message 5) Example.world Scenario.odd_frame
  = Some (Example.world, Raise ValidationError)
  /\ is_VMError ValidationError = false.
Proof.
  assert (Hrun : Example.execute 5 (Example.apply_message 5) Example.world
                   Scenario.odd_frame
                 = Some (Example.world, Raise ValidationError))
    by (vm_compute; reflexivity).
  split; [exact Hrun |].
  exact (proj1 (execute_vm_never_raises_VMError Example.validate_opcode
                  Example.OPCODE_GAS_COSTS Example.OPCODE_LOGIC_FUNCTIONS
                  (Example.apply_message 5) 5 Example.world Example.world
                  Scenario.odd_frame ValidationError Hrun)).
Defined.

Lemma apply_message_raises_only_depth_limit_witness :
  Example.apply_message 4 Example.world Example.child
  = Some (Example.world, Raise (VMErr StackDepthLimit))
  /\ 1024 <= Message.depth Example.child.
Proof.
  assert (Hrun : Example.apply_message 4 Example.world Example.child
                 = Some (Example.world, Raise (VMErr StackDepthLimit)))
    by reflexivity.
  split; [exact Hrun |].
  destruct (apply_message_raises_only_depth_limit Example.validate_opcode
              Example.OPCODE_GAS_COSTS Example.OPCODE_LOGIC_FUNCTIONS
              4 Example.world Example.world Example.child StackDepthLimit Hrun)
    as (_ & Hdepth & _).
  exact Hdepth.
Defined.

(** A message that sends 5 from [bob], who holds 5, to [alice], who holds
    10: the frame is built on a storage in which [bob] holds nothing and
    [alice] 15. *)
Lemma apply_message_transfers_value_witness :
  exists evm1,
    Storage.get_balance (storage evm1) Example.bob = 0
    /\ Storage.get_balance (storage evm1) Example.alice = 15
    /\ Storage.get_balance (storage evm1) Example.dave = 7.
Proof.
  destruct (apply_message_transfers_value Example.validate_opcode
              Example.OPCODE_GAS_COSTS Example.OPCODE_LOGIC_FUNCTIONS 3
              Example.world (Example.msg Example.bob Example.alice 5 100 0))
    as (evm1 & Hmove & _ & Hother & _).
  - reflexivity.
  - discriminate.
  - vm_compute. discriminate.
  - exists evm1. destruct Hmove as [Hbob Halice]; [vm_compute; discriminate |].
    specialize (Hother Example.dave ltac:(vm_compute; discriminate)
                       ltac:(vm_compute; discriminate)).
    cbn [Example.msg Message.sender Message.account Message.value] in Hbob, Halice.
    split; [rewrite Hbob; reflexivity |]. split; [rewrite Halice; reflexivity |].
    rewrite Hother. reflexivity.
Defined.
